(** * K-fold cross-validation of polynomial least squares

    A shallow embedding of the order/fold sweep of
    [notebooks/chapter1/cross_validation.ipynb] (code cell 3) and of the
    fold-size computation that precedes it.

    Modelling conventions.
    - Python exceptions are modelled by an error monad ([result]).
    - Arithmetic.  The notebook computes in binary64 through numpy, and the
      routines it calls ([np.dot], [np.linalg.solve], [ndarray.mean], [**]
      and [-] on floats) are not code of this repository.  The cell is
      therefore embedded twice.
      In [Float] the float type and these routines are the fields of an
      interface ([Float.Numpy]); what is proved there holds whatever the
      library computes, rounding, overflow and [nan] included.  The
      statements about the values of the losses are made there.
      At the top level the same code runs in exact rational arithmetic
      ([Qc], the canonical rationals with Leibniz equality), with [NaN] for
      the [nan] that [ndarray.mean] returns on an empty array and
      [np.linalg.solve] as exact elimination.  This version serves for the
      fold partition, the shapes, the design matrices and the failure paths,
      and it runs the code on concrete inputs; what binary64 would round or
      overflow is outside it.
    - Lengths, orders and the fold count are natural numbers; a negative
      [K] or [max_order] is outside the model.
    - The notebook targets Python 2.7 (see its kernelspec), hence a numpy in
      which [np.int] exists and [np.delete] ignores out-of-range indices. *)

From Stdlib Require Import List Arith ZArith Lia Bool.
From Stdlib Require Import QArith Qcanon Field.
From Stdlib Require Import Permutation.
Import ListNotations.

Open Scope Qc_scope.

(** ** Exceptions *)

Inductive exn : Type :=
| IndexError    (* index out of bounds *)
| ValueError    (* shapes not aligned / cannot be broadcast together *)
| LinAlgError.  (* numpy.linalg.LinAlgError: singular matrix, not square *)

Inductive result (A : Type) : Type :=
| OK (a : A)
| Raise (e : exn).

Arguments OK {A} a.
Arguments Raise {A} e.

Definition bind {A B : Type} (m : result A) (f : A -> result B) : result B :=
  match m with
  | OK a => f a
  | Raise e => Raise e
  end.

Notation "x <- m ;; k" := (bind m (fun x => k))
  (at level 61, m at next level, right associativity).

(** ** Floating-point results: a finite value or [nan] *)

Inductive fval : Type :=
| Fin (q : Qc)
| NaN.

(** ** Two-dimensional arrays

    An array of shape [(nrow, ncol)]; the column count is stored, since an
    array with no rows still has a shape in numpy ([X_train] of shape
    [(0, k+1)] when the held-out fold is the whole dataset). *)

Record ndarray : Type := Arr { ncol : nat; rws : list (list Qc) }.

Definition nrow (A : ndarray) : nat := length (rws A).

Definition wf (A : ndarray) : Prop :=
  Forall (fun r => length r = ncol A) (rws A).

(** An [(n,1)] array holding the entries of [v], as [x], [t], [x_test] and
    [t_test] are in the notebook. *)
Definition column (v : list Qc) : ndarray := Arr 1 (map (fun a => [a]) v).

Definition ones_like (A : ndarray) : ndarray :=
  Arr (ncol A) (map (map (fun _ => 1)) (rws A)).

(** [A ** n], elementwise. *)
Definition pow (A : ndarray) (n : nat) : ndarray :=
  Arr (ncol A) (map (map (fun a => a ^ n)) (rws A)).

Fixpoint zip_rows (r1 r2 : list (list Qc)) : list (list Qc) :=
  match r1, r2 with
  | a :: r1', b :: r2' => (a ++ b) :: zip_rows r1' r2'
  | _, _ => []
  end.

(** [np.hstack((A, B))] *)
Definition hstack (A B : ndarray) : result ndarray :=
  if nrow A =? nrow B
  then OK (Arr (ncol A + ncol B) (zip_rows (rws A) (rws B)))
  else Raise ValueError.

(** [A[a:b, :]] for [0 <= a], [0 <= b]: the slice is clipped to the array. *)
Definition slice (A : ndarray) (a b : nat) : ndarray :=
  Arr (ncol A) (firstn (b - a) (skipn a (rws A))).

(** [np.arange(a, b, 1)] *)
Definition arange (a b : nat) : list nat := seq a (b - a).

Definition mem (i : nat) (l : list nat) : bool := existsb (Nat.eqb i) l.

Fixpoint delete_from {A : Type} (i : nat) (idx : list nat) (l : list A) : list A :=
  match l with
  | [] => []
  | r :: l' =>
      if mem i idx then delete_from (S i) idx l'
      else r :: delete_from (S i) idx l'
  end.

(** [np.delete(A, idx, 0)]: the rows whose index is not in [idx]; an index
    beyond the last row deletes nothing. *)
Definition np_delete (A : ndarray) (idx : list nat) : ndarray :=
  Arr (ncol A) (delete_from 0 idx (rws A)).

(** [A.T] *)
Definition transpose (A : ndarray) : ndarray :=
  Arr (nrow A)
      (map (fun j => map (fun r => nth j r 0) (rws A)) (seq 0 (ncol A))).

Fixpoint dotp (u v : list Qc) : Qc :=
  match u, v with
  | a :: u', b :: v' => a * b + dotp u' v'
  | _, _ => 0
  end.

(** [np.dot(A, B)] on two-dimensional arrays. *)
Definition dot (A B : ndarray) : result ndarray :=
  if ncol A =? nrow B
  then OK (Arr (ncol B)
               (map (fun r => map (fun c => dotp r c) (rws (transpose B)))
                    (rws A)))
  else Raise ValueError.

(** Broadcasting of one dimension. *)
Definition bdim (m n : nat) : option nat :=
  if m =? n then Some m
  else if m =? 1 then Some n
  else if n =? 1 then Some m
  else None.

Definition bidx (len i : nat) : nat := if len =? 1 then 0%nat else i.

Definition bget (A : ndarray) (i j : nat) : Qc :=
  nth (bidx (ncol A) j) (nth (bidx (nrow A) i) (rws A) []) 0.

(** [A - B] with numpy broadcasting. *)
Definition sub (A B : ndarray) : result ndarray :=
  match bdim (nrow A) (nrow B), bdim (ncol A) (ncol B) with
  | Some r, Some c =>
      OK (Arr c (map (fun i => map (fun j => bget A i j - bget B i j)
                                   (seq 0 c))
                     (seq 0 r)))
  | _, _ => Raise ValueError
  end.

Definition of_nat (n : nat) : Qc := Q2Qc (inject_Z (Z.of_nat n)).

Definition sum (l : list Qc) : Qc := fold_right Qcplus 0 l.

(** [A.mean()]: the mean of all entries, [nan] for an array without entries;
    the exact mean, where binary64 rounds and may overflow (see
    [Float.mean]). *)
Definition mean (A : ndarray) : fval :=
  match concat (rws A) with
  | [] => NaN
  | els => Fin (sum els / of_nat (length els))
  end.

(** ** [np.linalg.solve]

    The library routine is modelled by its contract in exact arithmetic:
    Gaussian elimination, which fails exactly on singular matrices.  The
    binary64 factorisation of LAPACK agrees with it when a pivot is exactly
    zero in both, as for a zero matrix; it can return on a singular matrix
    and fail on an invertible one, so what depends on that is stated over
    [Float.solve].  A system is a list of equations [(row, rhs)]. *)

Definition equation : Type := (list Qc * Qc)%type.

Definition is_zero (q : Qc) : bool := if Qc_eq_dec q 0 then true else false.

(** First equation whose leading coefficient is not zero, and the others. *)
Fixpoint pick_pivot (eqs : list equation) : option (equation * list equation) :=
  match eqs with
  | [] => None
  | e :: eqs' =>
      if is_zero (hd 0 (fst e)) then
        match pick_pivot eqs' with
        | Some (p, others) => Some (p, e :: others)
        | None => None
        end
      else Some (e, eqs')
  end.

Fixpoint axpy (f : Qc) (u v : list Qc) : list Qc :=
  match u, v with
  | a :: u', b :: v' => (b - f * a) :: axpy f u' v'
  | _, _ => []
  end.

(** Eliminate the first unknown of [e] with the pivot equation [p]. *)
Definition eliminate (p e : equation) : equation :=
  let f := hd 0 (fst e) / hd 0 (fst p) in
  (axpy f (tl (fst p)) (tl (fst e)), snd e - f * snd p).

Fixpoint gauss (n : nat) (eqs : list equation) : option (list Qc) :=
  match n with
  | O => Some []
  | S n' =>
      match pick_pivot eqs with
      | None => None
      | Some (p, others) =>
          match gauss n' (map (eliminate p) others) with
          | None => None
          | Some v => Some ((snd p - dotp (tl (fst p)) v) / hd 0 (fst p) :: v)
          end
      end
  end.

Fixpoint solve_columns (n : nat) (a : list (list Qc)) (cols : list (list Qc))
  : option (list (list Qc)) :=
  match cols with
  | [] => Some []
  | c :: cols' =>
      match gauss n (combine a c), solve_columns n a cols' with
      | Some v, Some vs => Some (v :: vs)
      | _, _ => None
      end
  end.

(** [np.linalg.solve(a, b)] for two-dimensional [a] and [b]: [a] must be
    square and [b] must have as many rows as [a]; the factorisation of [a]
    fails on a singular matrix whatever [b] is. *)
Definition solve (a b : ndarray) : result ndarray :=
  if negb (nrow a =? ncol a) then Raise LinAlgError
  else if negb (nrow b =? nrow a) then Raise ValueError
  else
    match gauss (nrow a) (combine (rws a) (repeat 0 (nrow a))),
          solve_columns (nrow a) (rws a) (rws (transpose b)) with
    | Some _, Some vs => OK (transpose (Arr (nrow a) vs))
    | _, _ => Raise LinAlgError
    end.

(** ** The fold partition (cell 3, lines 52-54) *)

(** [np.tile(v, (1, K))], as the list of its single row. *)
Definition tile (v : Z) (K : nat) : list Z := repeat v K.

Definition zsum (l : list Z) : Z := fold_right Z.add 0%Z l.

(** [l[-1] = v]; an empty array has no last entry. *)
Definition set_last (l : list Z) (v : Z) : result (list Z) :=
  match l with
  | [] => Raise IndexError
  | _ => OK (removelast l ++ [v])
  end.

(** [l[-1]] *)
Definition get_last (l : list Z) : result Z :=
  match l with
  | [] => Raise IndexError
  | _ => OK (last l 0%Z)
  end.

(** [sizes = np.tile(np.int(N/float(10)),(1,K))]
    [sizes[0,-1] = sizes[0,-1] + N - sizes.sum()]
    For a natural number [N] the truncated float quotient [np.int(N/float(10))]
    is the integer quotient of [N] by [10]. *)
Definition sizes (N K : nat) : result (list Z) :=
  let tiled := tile (Z.of_nat (N / 10)) K in
  l <- get_last tiled ;;
  set_last tiled (l + Z.of_nat N - zsum tiled)%Z.

Fixpoint cumsum_from (acc : Z) (l : list Z) : list Z :=
  match l with
  | [] => []
  | a :: l' => (acc + a)%Z :: cumsum_from (acc + a)%Z l'
  end.

Definition cumsum (l : list Z) : list Z := cumsum_from 0%Z l.

(** [c_sizes = np.hstack((0,np.cumsum(sizes)))] *)
Definition c_sizes (N K : nat) : result (list Z) :=
  s <- sizes N K ;;
  OK (0%Z :: cumsum s).

(** [c[i]] for [0 <= i]. *)
Definition index {A : Type} (l : list A) (i : nat) : result A :=
  match nth_error l i with
  | Some a => OK a
  | None => Raise IndexError
  end.

(** ** The loss tables *)

Definition table : Type := list (list fval).

(** [np.zeros((r, c))] *)
Definition zeros (r c : nat) : table := repeat (repeat (Fin 0) c) r.

Fixpoint set_nth {A : Type} (i : nat) (v : A) (l : list A) : option (list A) :=
  match l, i with
  | [], _ => None
  | _ :: l', O => Some (v :: l')
  | a :: l', S i' =>
      match set_nth i' v l' with
      | Some l'' => Some (a :: l'')
      | None => None
      end
  end.

(** [tbl[i, j] = v] *)
Definition set2 (tbl : table) (i j : nat) (v : fval) : result table :=
  match nth_error tbl i with
  | None => Raise IndexError
  | Some row =>
      match set_nth j v row with
      | None => Raise IndexError
      | Some row' =>
          match set_nth i row' tbl with
          | Some tbl' => OK tbl'
          | None => Raise IndexError
          end
      end
  end.

(** [tbl[i, j]] *)
Definition get2 (tbl : table) (i j : nat) : option fval :=
  match nth_error tbl i with
  | Some row => nth_error row j
  | None => None
  end.

Record losses : Type :=
  Losses { cv_loss : table; ind_loss : table; train_loss : table }.

(** [((pred - t)**2).mean()], in exact arithmetic (see [Float.mse]). *)
Definition mse (pred t : ndarray) : result fval :=
  d <- sub pred t ;;
  OK (mean (pow d 2)).

(** ** The sweep (cell 3, lines 55-75) *)

Section Cell3.

(** The variables the cell reads: [N], [x], [t], [x_test], [t_test] are set
    by cell 1; [max_order] and [K] at the top of cell 3. *)
Variable N : nat.
Variables x t x_test t_test : ndarray.
Variables max_order K : nat.

(** The fit of one fold (lines 63-67): the held-out rows are those with
    index in [[a, b)], the training rows are all the others. *)
Definition fit (X : ndarray) (a b : nat) : result ndarray :=
  let X_train := np_delete X (arange a b) in
  let t_train := np_delete t (arange a b) in
  G <- dot (transpose X_train) X_train ;;
  r <- dot (transpose X_train) t_train ;;
  solve G r.

(** The body of the inner loop (lines 63-73). *)
Definition fold_body (c_sizes : list Z) (X X_test : ndarray) (k fold : nat)
           (L : losses) : result losses :=
  a <- index c_sizes fold ;;
  b <- index c_sizes (fold + 1) ;;
  let a := Z.to_nat a in
  let b := Z.to_nat b in
  let X_fold := slice X a b in
  let X_train := np_delete X (arange a b) in
  let t_fold := slice t a b in
  let t_train := np_delete t (arange a b) in
  w <- fit X a b ;;
  fold_pred <- dot X_fold w ;;
  cv <- mse fold_pred t_fold ;;
  cv_loss' <- set2 (cv_loss L) fold k cv ;;
  ind_pred <- dot X_test w ;;
  ind <- mse ind_pred t_test ;;
  ind_loss' <- set2 (ind_loss L) fold k ind ;;
  train_pred <- dot X_train w ;;
  tr <- mse train_pred t_train ;;
  train_loss' <- set2 (train_loss L) fold k tr ;;
  OK (Losses cv_loss' ind_loss' train_loss').

(** [for fold in range(K)] *)
Fixpoint fold_loop (c_sizes : list Z) (X X_test : ndarray) (k : nat)
         (folds : list nat) (L : losses) : result losses :=
  match folds with
  | [] => OK L
  | fold :: folds' =>
      L' <- fold_body c_sizes X X_test k fold L ;;
      fold_loop c_sizes X X_test k folds' L'
  end.

(** The design matrices after the update of lines 74-75. *)
Definition extend (X v : ndarray) (k : nat) : result ndarray :=
  hstack X (pow v (k + 1)).

(** [for k in range(max_order+1)] *)
Fixpoint order_loop (c_sizes : list Z) (orders : list nat)
         (X X_test : ndarray) (L : losses) : result losses :=
  match orders with
  | [] => OK L
  | k :: orders' =>
      L' <- fold_loop c_sizes X X_test k (seq 0 K) L ;;
      X' <- extend X x k ;;
      X_test' <- extend X_test x_test k ;;
      order_loop c_sizes orders' X' X_test' L'
  end.

(** Code cell 3 as a whole; the result is the final value of the three
    loss arrays. *)
Definition cell3 : result losses :=
  c_sizes <- c_sizes N K ;;
  let X := ones_like x in
  let X_test := ones_like x_test in
  let L := Losses (zeros K (max_order + 1)) (zeros K (max_order + 1))
                  (zeros K (max_order + 1)) in
  order_loop c_sizes (seq 0 (max_order + 1)) X X_test L.

End Cell3.

(** The component of the specification: the sweep on four [(n,1)] arrays,
    with [N] the number of training inputs. *)
Definition evaluate (x_train t_train x_test t_test : list Qc)
           (max_order K : nat) : result losses :=
  cell3 (length x_train) (column x_train) (column t_train)
        (column x_test) (column t_test) max_order K.

(** ** The balancing rule of the specification

    "Sizes are as equal as possible; any remainder from integer division is
    absorbed entirely into the last fold": [K - 1] folds of [floor(N/K)]
    indices and a last fold with the rest. *)
Definition balanced_sizes (N K : nat) : list Z :=
  repeat (Z.of_nat (N / K)) (K - 1)
  ++ [(Z.of_nat N - Z.of_nat (K - 1) * Z.of_nat (N / K))%Z].

(** ** Design matrices, from scratch

    The matrix of monomial features [[1, x, x^2, ..., x^k]] of the
    specification, one row per input. *)
Definition monomials (k : nat) (a : Qc) : list Qc :=
  map (fun j => a ^ j) (seq 0 (k + 1)).

Definition design (v : list Qc) (k : nat) : ndarray :=
  Arr (k + 1) (map (monomials k) v).

(** The design matrix as the notebook builds it: [np.ones_like(x)], then one
    column appended per iteration of the order loop (lines 55 and 74). *)
Fixpoint design_inc (v : ndarray) (k : nat) : result ndarray :=
  match k with
  | O => OK (ones_like v)
  | S k' => X <- design_inc v k' ;; extend X v k'
  end.

(** ** Folds, rows and losses *)

(** First index of fold [f] and the index after its last one: the entries
    [f] and [f + 1] of [c_sizes] (lemma [c_sizes_index]). *)
Definition fold_start (N f : nat) : nat := (f * (N / 10))%nat.

Definition fold_stop (N K f : nat) : nat :=
  if (S f =? K)%nat then N else (S f * (N / 10))%nat.

(** Held-out entries: those whose index falls in [[a, b)]. *)
Definition held_out {A : Type} (a b : nat) (l : list A) : list A :=
  firstn (b - a) (skipn a l).

(** Training entries: all those whose index is not in [[a, b)]. *)
Definition training {A : Type} (a b : nat) (l : list A) : list A :=
  delete_from 0 (arange a b) l.

Definition columns (d : nat) (rows : list (list Qc)) : list (list Qc) :=
  map (fun j => map (fun r => nth j r 0) rows) (seq 0 d).

(** [rows . w] *)
Definition predict (rows : list (list Qc)) (w : list Qc) : list Qc :=
  map (fun r => dotp r w) rows.

Definition sq_diffs (p y : list Qc) : list Qc :=
  map (fun ab => (fst ab - snd ab) ^ 2) (combine p y).

(** Mean squared error: the arithmetic mean of the row-wise squared
    differences ([nan] when there is no row). *)
Definition mean_sq (p y : list Qc) : fval :=
  match sq_diffs p y with
  | [] => NaN
  | d => Fin (sum d / of_nat (length d))
  end.

(** Rational literals for examples. *)
Definition qs (l : list Z) : list Qc := map (fun z => Q2Qc (inject_Z z)) l.

(** ** Auxiliary notions for the statements *)

(** The Gram matrix [A.T . A], from the columns of [A]. *)
Definition gram (cols : list (list Qc)) : list (list Qc) :=
  map (fun r => map (fun c => dotp r c) cols) cols.

(** The normal equations [(A.T . A) w = A.T . y] of a training subset with
    rows [A] and targets [y]. *)
Definition normal_matrix (d : nat) (A : list (list Qc)) : ndarray :=
  Arr d (gram (columns d A)).

Definition normal_rhs (d : nat) (A : list (list Qc)) (y : list Qc) : list Qc :=
  predict (columns d A) y.

Definition singular (a : ndarray) : Prop :=
  exists u, length u = ncol a /\ u <> repeat 0 (ncol a) /\
            Forall (fun r => dotp r u = 0) (rws a).

Definition sat (v : list Qc) (e : equation) : Prop := dotp (fst e) v = snd e.

Definition hom (v : list Qc) (e : equation) : Prop := dotp (fst e) v = 0.

Definition rows_n (n : nat) (eqs : list equation) : Prop :=
  Forall (fun e => length (fst e) = n) eqs.

Definition shape (tbl : table) (r c : nat) : Prop :=
  length tbl = r /\ Forall (fun row => length row = c) tbl.

Definition shapes (L : losses) (r c : nat) : Prop :=
  shape (cv_loss L) r c /\ shape (ind_loss L) r c /\ shape (train_loss L) r c.

(** The three losses recorded for a (fold, order) pair. *)
Definition entry (L : losses) (fold k : nat) : option (fval * fval * fval) :=
  match get2 (cv_loss L) fold k, get2 (ind_loss L) fold k,
        get2 (train_loss L) fold k with
  | Some cv, Some ind, Some tr => Some (cv, ind, tr)
  | _, _, _ => None
  end.

(** The three losses of one cell, without the table updates. *)
Definition cell_losses (t t_test : ndarray) (c_sizes : list Z)
           (X X_test : ndarray) (fold : nat) : result (fval * fval * fval) :=
  a <- index c_sizes fold ;;
  b <- index c_sizes (fold + 1) ;;
  let a := Z.to_nat a in
  let b := Z.to_nat b in
  w <- fit t X a b ;;
  fold_pred <- dot (slice X a b) w ;;
  cv <- mse fold_pred (slice t a b) ;;
  ind_pred <- dot X_test w ;;
  ind <- mse ind_pred t_test ;;
  train_pred <- dot (np_delete X (arange a b)) w ;;
  tr <- mse train_pred (np_delete t (arange a b)) ;;
  OK (cv, ind, tr).

(** The three losses of the cell (order [k], fold [f]) of [evaluate]. *)
Definition cell (x t xt tt : list Qc) (K k f : nat)
  : result (fval * fval * fval) :=
  c_sizes <- c_sizes (length x) K ;;
  cell_losses (column t) (column tt) c_sizes (design x k) (design xt k) f.

(** The losses of a cell once the fit has produced the coefficients [w]. *)
Definition cell_of_fit (x t xt tt : list Qc) (K k f : nat) (w : list Qc)
  : fval * fval * fval :=
  let a := fold_start (length x) f in
  let b := fold_stop (length x) K f in
  let rows := map (monomials k) x in
  (mean_sq (predict (held_out a b rows) w) (held_out a b t),
   mean_sq (predict (map (monomials k) xt) w) tt,
   mean_sq (predict (training a b rows) w) (training a b t)).

(** The normal-equations matrix of the cell (order [k], fold [f]). *)
Definition cell_normal_matrix (x : list Qc) (K k f : nat) : ndarray :=
  normal_matrix (k + 1)
    (training (fold_start (length x) f) (fold_stop (length x) K f)
              (map (monomials k) x)).

(** The value at [a] of the polynomial with coefficients [coeffs] (constant
    term first): the noiseless data of the specification. *)
Definition polyval (coeffs : list Qc) (a : Qc) : Qc :=
  fold_right (fun c acc => c + a * acc) 0 coeffs.

(** Case analysis on the first computation of a monadic sequence. *)
Ltac step_bind :=
  match goal with
  | |- context [bind ?m _] => destruct m eqn:?; cbn [bind]
  end.

(** ** The rest of the notebook: data generation (cell 1) and the plotted
    series (cell 4) *)

Definition qz (z : Z) : Qc := Q2Qc (inject_Z z).

(** [c * A] for a scalar [c]. *)
Definition smul (c : Qc) (A : ndarray) : ndarray :=
  Arr (ncol A) (map (map (fun a => c * a)) (rws A)).

(** [A - c] for a scalar [c]. *)
Definition ssub (A : ndarray) (c : Qc) : ndarray :=
  Arr (ncol A) (map (map (fun a => a - c)) (rws A)).

(** [A + B] with numpy broadcasting. *)
Definition add (A B : ndarray) : result ndarray :=
  match bdim (nrow A) (nrow B), bdim (ncol A) (ncol B) with
  | Some r, Some c =>
      OK (Arr c (map (fun i => map (fun j => bget A i j + bget B i j)
                                   (seq 0 c))
                     (seq 0 r)))
  | _, _ => Raise ValueError
  end.

(** [np.linspace(start, stop, num)]: [arange(0, num) * step + start] with
    [step = (stop - start) / (num - 1)], the last entry being set to [stop];
    a single point is [start].  The points are the exact ones, which numpy
    rounds to binary64; their number and their two ends are the same. *)
Definition linspace (start stop : Qc) (num : nat) : list Qc :=
  match num with
  | O => []
  | S O => [start]
  | S n =>
      map (fun i => of_nat i * ((stop - start) / of_nat n) + start) (seq 0 n)
      ++ [stop]
  end.

(** [5*x**3 - x**2 + x + 150*noise] *)
Definition targets (x noise : ndarray) : result ndarray :=
  a <- sub (smul (qz 5) (pow x 3)) (pow x 2) ;;
  b <- add a x ;;
  add b (smul (qz 150) noise).

(** Code cell 1, as a function of its random draws: [u] stands for the
    value of [np.random.rand(N,1)], [e] and [e_test] for the values of the
    two calls of [np.random.randn]. *)
Definition cell1 (N_test : nat) (u e e_test : ndarray)
  : result (ndarray * ndarray * ndarray * ndarray) :=
  let x := ssub (smul (qz 10) u) (qz 5) in
  t <- targets x e ;;
  let x_test := column (linspace (- qz 5) (qz 5) N_test) in
  t_test <- targets x_test e_test ;;
  OK (x, t, x_test, t_test).

(** Floating-point addition and division by a count, with [nan]. *)
Definition fadd (a b : fval) : fval :=
  match a, b with
  | Fin p, Fin q => Fin (p + q)
  | _, _ => NaN
  end.

Definition fdiv (a : fval) (n : nat) : fval :=
  match a with
  | Fin p => if (n =? 0)%nat then NaN else Fin (p / of_nat n)
  | NaN => NaN
  end.

(** [tbl.mean(axis=0)] for a table with [c] columns: the mean of each
    column over the rows. *)
Definition mean_axis0 (c : nat) (tbl : table) : list fval :=
  map (fun j => fdiv (fold_right fadd (Fin 0)
                                 (map (fun row => nth j row NaN) tbl))
                     (length tbl))
      (seq 0 c).

(** The three series that code cell 4 plots against
    [order = np.arange(max_order+1)]: training, cross-validation and
    independent loss, each averaged over the folds. *)
Definition cell4 (max_order : nat) (L : losses)
  : list nat * list fval * list fval * list fval :=
  (arange 0 (max_order + 1),
   mean_axis0 (max_order + 1) (train_loss L),
   mean_axis0 (max_order + 1) (cv_loss L),
   mean_axis0 (max_order + 1) (ind_loss L)).

(** Cells 1 and 3 in sequence. *)
Definition notebook (N N_test : nat) (u e e_test : ndarray)
           (max_order K : nat) : result losses :=
  d <- cell1 N_test u e e_test ;;
  match d with
  | (x, t, x_test, t_test) => cell3 N x t x_test t_test max_order K
  end.

(** The generating polynomial of cell 1, [x - x^2 + 5 x^3], constant term
    first. *)
Definition cubic : list Qc := [0; 1; - (1); qz 5].

(** ** The sweep over the array library (cell 3, lines 52-75)

    The same cell once more, this time without fixing the arithmetic:
    [float64] and the routines of numpy are the fields of an interface
    ([np.dot], [np.linalg.solve], [ndarray.mean], [**] and [-] on floats),
    and everything the notebook itself does (slicing, deleting rows,
    transposing, broadcasting, stacking columns, filling the tables, the two
    loops) is defined over it.  What is proved of this version holds whatever
    the library computes, with its rounding, its overflows and its [nan]. *)

Module Float.

Record ndarray (A : Type) : Type := Arr { ncol : nat; rws : list (list A) }.

Arguments Arr {A} ncol rws.
Arguments ncol {A} n.
Arguments rws {A} n.

Section Arrays.

Context {A : Type}.

Definition nrow (X : ndarray A) : nat := length (rws X).

Definition column (v : list A) : ndarray A := Arr 1 (map (fun a => [a]) v).

Fixpoint zip_rows (r1 r2 : list (list A)) : list (list A) :=
  match r1, r2 with
  | a :: r1', b :: r2' => (a ++ b) :: zip_rows r1' r2'
  | _, _ => []
  end.

(** [np.hstack((X, Y))] *)
Definition hstack (X Y : ndarray A) : result (ndarray A) :=
  if nrow X =? nrow Y
  then OK (Arr (ncol X + ncol Y) (zip_rows (rws X) (rws Y)))
  else Raise ValueError.

(** [X[a:b, :]] *)
Definition slice (X : ndarray A) (a b : nat) : ndarray A :=
  Arr (ncol X) (firstn (b - a) (skipn a (rws X))).

(** [np.delete(X, idx, 0)] *)
Definition np_delete (X : ndarray A) (idx : list nat) : ndarray A :=
  Arr (ncol X) (delete_from 0 idx (rws X)).

Definition table : Type := list (list A).

(** [np.full((r, c), v)] *)
Definition full (r c : nat) (v : A) : table := repeat (repeat v c) r.

(** [tbl[i, j] = v] *)
Definition set2 (tbl : table) (i j : nat) (v : A) : result table :=
  match nth_error tbl i with
  | None => Raise IndexError
  | Some row =>
      match set_nth j v row with
      | None => Raise IndexError
      | Some row' =>
          match set_nth i row' tbl with
          | Some tbl' => OK tbl'
          | None => Raise IndexError
          end
      end
  end.

(** [tbl[i, j]] *)
Definition get2 (tbl : table) (i j : nat) : option A :=
  match nth_error tbl i with
  | Some row => nth_error row j
  | None => None
  end.

Definition shape (tbl : table) (r c : nat) : Prop :=
  length tbl = r /\ Forall (fun row => length row = c) tbl.

Record losses : Type :=
  Losses { cv_loss : table; ind_loss : table; train_loss : table }.

Definition shapes (L : losses) (r c : nat) : Prop :=
  shape (cv_loss L) r c /\ shape (ind_loss L) r c /\ shape (train_loss L) r c.

(** The three losses recorded for a (fold, order) pair. *)
Definition entry (L : losses) (fold k : nat) : option (A * A * A) :=
  match get2 (cv_loss L) fold k, get2 (ind_loss L) fold k,
        get2 (train_loss L) fold k with
  | Some cv, Some ind, Some tr => Some (cv, ind, tr)
  | _, _, _ => None
  end.

End Arrays.

Arguments losses A : clear implicits.

(** What cell 3 uses of numpy.  [zero] and [one] are the floats [0.0] and
    [1.0] of [np.zeros] and [np.ones_like]; [power a n] is [a ** n] and
    [subtract a b] is [a - b] on two floats; [dot], [mean] and [solve] are
    [np.dot], [ndarray.mean] and [np.linalg.solve] on two-dimensional
    arrays. *)
Class Numpy : Type := {
  float64 : Type;
  zero : float64;
  one : float64;
  power : float64 -> nat -> float64;
  subtract : float64 -> float64 -> float64;
  dot : ndarray float64 -> ndarray float64 -> result (ndarray float64);
  mean : ndarray float64 -> float64;
  solve : ndarray float64 -> ndarray float64 -> result (ndarray float64)
}.

Section Sweep.

Context {np : Numpy}.

Definition ones_like (X : ndarray float64) : ndarray float64 :=
  Arr (ncol X) (map (map (fun _ => one)) (rws X)).

(** [X ** n], elementwise. *)
Definition pow (X : ndarray float64) (n : nat) : ndarray float64 :=
  Arr (ncol X) (map (map (fun a => power a n)) (rws X)).

(** [X.T] *)
Definition transpose (X : ndarray float64) : ndarray float64 :=
  Arr (nrow X)
      (map (fun j => map (fun r => nth j r zero) (rws X)) (seq 0 (ncol X))).

Definition bget (X : ndarray float64) (i j : nat) : float64 :=
  nth (bidx (ncol X) j) (nth (bidx (nrow X) i) (rws X) []) zero.

(** [X - Y] with numpy broadcasting. *)
Definition sub (X Y : ndarray float64) : result (ndarray float64) :=
  match bdim (nrow X) (nrow Y), bdim (ncol X) (ncol Y) with
  | Some r, Some c =>
      OK (Arr c (map (fun i => map (fun j => subtract (bget X i j) (bget Y i j))
                                   (seq 0 c))
                     (seq 0 r)))
  | _, _ => Raise ValueError
  end.

(** [np.zeros((r, c))] *)
Definition zeros (r c : nat) : table (A := float64) := full r c zero.

(** [((pred - t)**2).mean()] *)
Definition mse (pred t : ndarray float64) : result float64 :=
  d <- sub pred t ;;
  OK (mean (pow d 2)).

(** Lines 64, 66 and 67. *)
Definition fit (t X : ndarray float64) (a b : nat) : result (ndarray float64) :=
  let X_train := np_delete X (arange a b) in
  let t_train := np_delete t (arange a b) in
  G <- dot (transpose X_train) X_train ;;
  r <- dot (transpose X_train) t_train ;;
  solve G r.

(** The body of the inner loop (lines 63-73). *)
Definition fold_body (t t_test : ndarray float64) (c_sizes : list Z)
           (X X_test : ndarray float64) (k fold : nat) (L : losses float64)
  : result (losses float64) :=
  a <- index c_sizes fold ;;
  b <- index c_sizes (fold + 1) ;;
  let a := Z.to_nat a in
  let b := Z.to_nat b in
  let X_fold := slice X a b in
  let X_train := np_delete X (arange a b) in
  let t_fold := slice t a b in
  let t_train := np_delete t (arange a b) in
  w <- fit t X a b ;;
  fold_pred <- dot X_fold w ;;
  cv <- mse fold_pred t_fold ;;
  cv_loss' <- set2 (cv_loss L) fold k cv ;;
  ind_pred <- dot X_test w ;;
  ind <- mse ind_pred t_test ;;
  ind_loss' <- set2 (ind_loss L) fold k ind ;;
  train_pred <- dot X_train w ;;
  tr <- mse train_pred t_train ;;
  train_loss' <- set2 (train_loss L) fold k tr ;;
  OK (Losses cv_loss' ind_loss' train_loss').

(** [for fold in range(K)] *)
Fixpoint fold_loop (t t_test : ndarray float64) (c_sizes : list Z)
         (X X_test : ndarray float64) (k : nat) (folds : list nat)
         (L : losses float64) : result (losses float64) :=
  match folds with
  | [] => OK L
  | fold :: folds' =>
      L' <- fold_body t t_test c_sizes X X_test k fold L ;;
      fold_loop t t_test c_sizes X X_test k folds' L'
  end.

(** Lines 74-75. *)
Definition extend (X v : ndarray float64) (k : nat) : result (ndarray float64) :=
  hstack X (pow v (k + 1)).

(** [for k in range(max_order+1)] *)
Fixpoint order_loop (x t x_test t_test : ndarray float64) (K : nat)
         (c_sizes : list Z) (orders : list nat) (X X_test : ndarray float64)
         (L : losses float64) : result (losses float64) :=
  match orders with
  | [] => OK L
  | k :: orders' =>
      L' <- fold_loop t t_test c_sizes X X_test k (seq 0 K) L ;;
      X' <- extend X x k ;;
      X_test' <- extend X_test x_test k ;;
      order_loop x t x_test t_test K c_sizes orders' X' X_test' L'
  end.

(** Code cell 3 from line 52 on. *)
Definition cell3 (N : nat) (x t x_test t_test : ndarray float64)
           (max_order K : nat) : result (losses float64) :=
  c_sizes <- c_sizes N K ;;
  let X := ones_like x in
  let X_test := ones_like x_test in
  let L := Losses (zeros K (max_order + 1)) (zeros K (max_order + 1))
                  (zeros K (max_order + 1)) in
  order_loop x t x_test t_test K c_sizes (seq 0 (max_order + 1)) X X_test L.

Definition evaluate (x_train t_train x_test t_test : list float64)
           (max_order K : nat) : result (losses float64) :=
  cell3 (length x_train) (column x_train) (column t_train)
        (column x_test) (column t_test) max_order K.

(** A row of the design matrix of order [k]: the [1.0] of [np.ones_like]
    and the powers [a ** 1], ..., [a ** k] that the order loop appends. *)
Definition monomials (k : nat) (a : float64) : list float64 :=
  one :: map (fun j => power a j) (seq 1 k).

Definition design (v : list float64) (k : nat) : ndarray float64 :=
  Arr (k + 1) (map (monomials k) v).

(** The three losses of one cell, without the table updates. *)
Definition cell_losses (t t_test : ndarray float64) (c_sizes : list Z)
           (X X_test : ndarray float64) (fold : nat)
  : result (float64 * float64 * float64) :=
  a <- index c_sizes fold ;;
  b <- index c_sizes (fold + 1) ;;
  let a := Z.to_nat a in
  let b := Z.to_nat b in
  w <- fit t X a b ;;
  fold_pred <- dot (slice X a b) w ;;
  cv <- mse fold_pred (slice t a b) ;;
  ind_pred <- dot X_test w ;;
  ind <- mse ind_pred t_test ;;
  train_pred <- dot (np_delete X (arange a b)) w ;;
  tr <- mse train_pred (np_delete t (arange a b)) ;;
  OK (cv, ind, tr).

(** The losses of the cell (order [k], fold [f]) of [evaluate]. *)
Definition cell (x t xt tt : list float64) (K k f : nat)
  : result (float64 * float64 * float64) :=
  c_sizes <- c_sizes (length x) K ;;
  cell_losses (column t) (column tt) c_sizes (design x k) (design xt k) f.

(** The cell (order [k'], fold [f']) is computed before the cell (order [k],
    fold [f]): the order loop is the outer one. *)
Definition before (k' f' k f : nat) : Prop :=
  (k' < k)%nat \/ (k' = k /\ (f' < f)%nat).

End Sweep.

End Float.

(** ** An arithmetic for the interface: rationals and [nan]

    Exact operations on rationals, [nan] being absorbing; [np.dot] by the
    inner products of rows and columns, the mean as the sum divided by the
    count, [np.linalg.solve] by the elimination above.  It shows that the
    interface can be implemented and serves to run the sweep on concrete
    inputs. *)

Definition fmul (a b : fval) : fval :=
  match a, b with
  | Fin p, Fin q => Fin (p * q)
  | _, _ => NaN
  end.

Definition fsub (a b : fval) : fval :=
  match a, b with
  | Fin p, Fin q => Fin (p - q)
  | _, _ => NaN
  end.

Definition fpow (a : fval) (n : nat) : fval :=
  match a with
  | Fin p => Fin (p ^ n)
  | NaN => NaN
  end.

(** [a < 0]; false for [nan], as every comparison with [nan] is. *)
Definition fnegative (a : fval) : bool :=
  match a with
  | Fin p => match p ?= 0 with Lt => true | _ => false end
  | NaN => false
  end.

Fixpoint fdotp (u v : list fval) : fval :=
  match u, v with
  | a :: u', b :: v' => fadd (fmul a b) (fdotp u' v')
  | _, _ => Fin 0
  end.

Definition rational_dot (X Y : Float.ndarray fval) : result (Float.ndarray fval) :=
  if Float.ncol X =? Float.nrow Y
  then OK (Float.Arr (Float.ncol Y)
             (map (fun r => map (fun j => fdotp r (map (fun s => nth j s NaN)
                                                       (Float.rws Y)))
                                (seq 0 (Float.ncol Y)))
                  (Float.rws X)))
  else Raise ValueError.

Definition rational_mean (X : Float.ndarray fval) : fval :=
  match concat (Float.rws X) with
  | [] => NaN
  | els => fdiv (fold_right fadd (Fin 0) els) (length els)
  end.

Fixpoint finite_row (r : list fval) : option (list Qc) :=
  match r with
  | [] => Some []
  | Fin p :: r' =>
      match finite_row r' with
      | Some l => Some (p :: l)
      | None => None
      end
  | NaN :: _ => None
  end.

Fixpoint finite_rows (rows : list (list fval)) : option (list (list Qc)) :=
  match rows with
  | [] => Some []
  | r :: rows' =>
      match finite_row r, finite_rows rows' with
      | Some l, Some ls => Some (l :: ls)
      | _, _ => None
      end
  end.

(** On finite entries, the elimination of [solve]; a [nan] among the entries
    spreads to the whole result. *)
Definition rational_solve (a b : Float.ndarray fval)
  : result (Float.ndarray fval) :=
  if negb (Float.nrow a =? Float.ncol a) then Raise LinAlgError
  else if negb (Float.nrow b =? Float.nrow a) then Raise ValueError
  else
    match finite_rows (Float.rws a), finite_rows (Float.rws b) with
    | Some ra, Some rb =>
        match solve (Arr (Float.ncol a) ra) (Arr (Float.ncol b) rb) with
        | OK w => OK (Float.Arr (ncol w) (map (map Fin) (rws w)))
        | Raise e => Raise e
        end
    | _, _ =>
        OK (Float.Arr (Float.ncol b) (map (map (fun _ => NaN)) (Float.rws b)))
    end.

Definition rational : Float.Numpy :=
  {| Float.float64 := fval;
     Float.zero := Fin 0;
     Float.one := Fin 1;
     Float.power := fpow;
     Float.subtract := fsub;
     Float.dot := rational_dot;
     Float.mean := rational_mean;
     Float.solve := rational_solve |}.

(** Literals for examples. *)
Definition fs (l : list Z) : list fval := map Fin (qs l).

(** * Properties *)

(** ** The error monad *)

Lemma bind_OK {A B : Type} (m : result A) (f : A -> result B) (b : B) :
  bind m f = OK b -> exists a, m = OK a /\ f a = OK b.
Proof.
  destruct m as [a|e]; simpl; intros H; [eauto | discriminate].
Qed.

Lemma bind_Raise {A B : Type} (m : result A) (f : A -> result B) (e : exn) :
  bind m f = Raise e -> m = Raise e \/ exists a, m = OK a /\ f a = Raise e.
Proof.
  destruct m as [a|e']; simpl; intros H; [right; eauto | left; congruence].
Qed.

(** ** Fold sizes *)

Lemma removelast_repeat {A : Type} (v : A) (n : nat) :
  removelast (repeat v (S n)) = repeat v n.
Proof.
  simpl repeat. rewrite repeat_cons. apply removelast_last.
Qed.

Lemma last_repeat {A : Type} (v d : A) (n : nat) :
  last (repeat v (S n)) d = v.
Proof.
  simpl repeat. rewrite repeat_cons. apply last_last.
Qed.

Lemma zsum_repeat (v : Z) (n : nat) : zsum (repeat v n) = (Z.of_nat n * v)%Z.
Proof.
  induction n as [|n IH]; [reflexivity|].
  simpl repeat. simpl zsum. rewrite IH. lia.
Qed.

Lemma zsum_app (l1 l2 : list Z) : zsum (l1 ++ l2) = (zsum l1 + zsum l2)%Z.
Proof.
  induction l1 as [|a l1 IH]; simpl; [reflexivity | rewrite IH; lia].
Qed.

Lemma sizes_0 (N : nat) : sizes N 0 = Raise IndexError.
Proof. reflexivity. Qed.

Lemma sizes_S (N K : nat) :
  sizes N (S K) =
  OK (repeat (Z.of_nat (N / 10)) K
      ++ [(Z.of_nat N - Z.of_nat K * Z.of_nat (N / 10))%Z]).
Proof.
  unfold sizes, tile. generalize (Z.of_nat (N / 10)) as q. intros q.
  assert (G : get_last (repeat q (S K)) = OK q).
  { unfold get_last. rewrite last_repeat. reflexivity. }
  rewrite G. unfold bind, set_last.
  rewrite removelast_repeat, zsum_repeat. cbn [repeat].
  do 3 f_equal. lia.
Qed.

Lemma sizes_sum (N K : nat) (s : list Z) :
  sizes N K = OK s -> length s = K /\ zsum s = Z.of_nat N.
Proof.
  destruct K as [|K]; [discriminate|].
  rewrite sizes_S. intros H; injection H as <-. split.
  - rewrite length_app, repeat_length. simpl. lia.
  - rewrite zsum_app, zsum_repeat. simpl. lia.
Qed.

(** ** Gaussian elimination *)

Lemma is_zero_true (q : Qc) : is_zero q = true <-> q = 0.
Proof.
  unfold is_zero. destruct (Qc_eq_dec q 0); split; intros; congruence.
Qed.

Lemma is_zero_false (q : Qc) : is_zero q = false <-> q <> 0.
Proof.
  unfold is_zero. destruct (Qc_eq_dec q 0); split; intros; congruence.
Qed.

Lemma pick_pivot_Some (eqs : list equation) (p : equation) (others : list equation) :
  pick_pivot eqs = Some (p, others) ->
  hd 0 (fst p) <> 0 /\ length eqs = S (length others) /\
  forall P : equation -> Prop, Forall P eqs <-> P p /\ Forall P others.
Proof.
  revert p others. induction eqs as [|e eqs IH]; intros p others; simpl.
  - discriminate.
  - destruct (is_zero (hd 0 (fst e))) eqn:Z.
    + destruct (pick_pivot eqs) as [[p' o']|]; [|discriminate].
      intros H; injection H as <- <-.
      destruct (IH p' o' eq_refl) as (Hp & Hl & HP).
      split; [exact Hp|]. split; [simpl; lia|].
      intros P. rewrite !Forall_cons_iff, HP. tauto.
    + intros H; injection H as <- <-.
      split; [apply is_zero_false; exact Z|]. split; [reflexivity|].
      intros P. apply Forall_cons_iff.
Qed.

Lemma pick_pivot_None (eqs : list equation) :
  pick_pivot eqs = None -> Forall (fun e => hd 0 (fst e) = 0) eqs.
Proof.
  induction eqs as [|e eqs IH]; simpl; [constructor|].
  destruct (is_zero (hd 0 (fst e))) eqn:Z; [|discriminate].
  destruct (pick_pivot eqs) as [[p' o']|]; [discriminate|].
  intros _. constructor; [apply is_zero_true; exact Z | apply IH; reflexivity].
Qed.

Lemma axpy_length (f : Qc) (u v : list Qc) :
  length u = length v -> length (axpy f u v) = length v.
Proof.
  revert v. induction u as [|a u IH]; intros [|b v]; simpl; try discriminate.
  - reflexivity.
  - intros H. f_equal. apply IH. lia.
Qed.

Lemma dotp_axpy (f : Qc) (u v w : list Qc) :
  length u = length v ->
  dotp (axpy f u v) w = dotp v w - f * dotp u w.
Proof.
  revert v w. induction u as [|a u IH]; intros [|b v] w; simpl; try discriminate.
  - intros _. ring.
  - intros H. destruct w as [|c w]; [ring|].
    rewrite IH by lia. ring.
Qed.

Lemma dotp_cons_row (r : list Qc) (n : nat) (x0 : Qc) (v : list Qc) :
  length r = S n -> dotp r (x0 :: v) = hd 0 r * x0 + dotp (tl r) v.
Proof.
  destruct r as [|a r]; [discriminate | reflexivity].
Qed.

Lemma tl_length {A : Type} (r : list A) (n : nat) :
  length r = S n -> length (tl r) = n.
Proof.
  destruct r; simpl; [discriminate | lia].
Qed.

Lemma dotp_zeros_r (r : list Qc) (n : nat) : dotp r (repeat 0 n) = 0.
Proof.
  revert n. induction r as [|a r IH]; intros [|n]; simpl; try reflexivity.
  rewrite IH. ring.
Qed.

Lemma dotp_nil_r (r : list Qc) : dotp r [] = 0.
Proof. destruct r; reflexivity. Qed.

Lemma eliminate_sat (p e : equation) (x0 : Qc) (v : list Qc) (n : nat) :
  length (fst p) = S n -> length (fst e) = S n ->
  hd 0 (fst p) <> 0 ->
  sat (x0 :: v) p ->
  (sat v (eliminate p e) <-> sat (x0 :: v) e).
Proof.
  intros Lp Le Hp. unfold sat, eliminate. simpl fst. simpl snd.
  rewrite (dotp_cons_row _ n) by exact Lp.
  rewrite (dotp_cons_row _ n) by exact Le.
  rewrite dotp_axpy by (rewrite !(tl_length _ n); auto).
  generalize (dotp (tl (fst p)) v) as P. generalize (dotp (tl (fst e)) v) as D.
  generalize dependent (hd 0 (fst p)). generalize (hd 0 (fst e)).
  intros e0 p0 Hp D P Sp. rewrite <- Sp. split; intros H.
  - assert (E : snd e = (snd e - e0 / p0 * (p0 * x0 + P)) + e0 / p0 * (p0 * x0 + P))
      by ring.
    rewrite <- H in E. rewrite E. field. exact Hp.
  - rewrite <- H. field. exact Hp.
Qed.

Lemma eliminate_rows (p : equation) (others : list equation) (n : nat) :
  length (fst p) = S n -> rows_n (S n) others ->
  rows_n n (map (eliminate p) others).
Proof.
  intros Lp H. unfold rows_n. rewrite Forall_map.
  eapply Forall_impl; [|exact H]. intros e Le. simpl.
  rewrite axpy_length; rewrite !(tl_length _ n); auto.
Qed.

Lemma gauss_sound (n : nat) : forall (eqs : list equation) (v : list Qc),
  length eqs = n -> rows_n n eqs -> gauss n eqs = Some v ->
  length v = n /\ Forall (sat v) eqs.
Proof.
  induction n as [|n IH]; intros eqs v Hl Hr; simpl.
  - intros H; injection H as <-. destruct eqs; [|discriminate].
    split; [reflexivity | constructor].
  - destruct (pick_pivot eqs) as [[p others]|] eqn:Pk; [|discriminate].
    destruct (pick_pivot_Some _ _ _ Pk) as (Hp & Hlen & HP).
    assert (Hr' := proj1 (HP _) Hr). destruct Hr' as [Lp Lo].
    destruct (gauss n (map (eliminate p) others)) as [v'|] eqn:G; [|discriminate].
    intros H; injection H as <-.
    assert (Lm : length (map (eliminate p) others) = n)
      by (rewrite length_map; lia).
    destruct (IH _ _ Lm (eliminate_rows _ _ _ Lp Lo) G) as [Lv Sv].
    split; [cbn [length]; lia|].
    assert (Sp : sat ((snd p - dotp (tl (fst p)) v') / hd 0 (fst p) :: v') p).
    { unfold sat. rewrite (dotp_cons_row _ n) by exact Lp. field. exact Hp. }
    apply HP. split; [exact Sp|].
    rewrite Forall_map in Sv. rewrite Forall_forall in *.
    intros e He. apply (eliminate_sat p e _ v' n); auto.
Qed.

Lemma gauss_unique (n : nat) : forall (eqs : list equation) (v u : list Qc),
  rows_n n eqs -> gauss n eqs = Some v ->
  length u = n -> Forall (sat u) eqs -> u = v.
Proof.
  induction n as [|n IH]; intros eqs v u Hr; simpl.
  - intros H; injection H as <-. destruct u; [reflexivity | discriminate].
  - destruct (pick_pivot eqs) as [[p others]|] eqn:Pk; [|discriminate].
    destruct (pick_pivot_Some _ _ _ Pk) as (Hp & Hlen & HP).
    assert (Hr' := proj1 (HP _) Hr). destruct Hr' as [Lp Lo].
    destruct (gauss n (map (eliminate p) others)) as [v'|] eqn:G; [|discriminate].
    intros H; injection H as <-. intros Lu Su.
    destruct u as [|u0 u']; [discriminate|].
    apply HP in Su. destruct Su as [Sp So].
    assert (E : u' = v').
    { apply (IH _ _ _ (eliminate_rows _ _ _ Lp Lo) G); [simpl in Lu; lia|].
      rewrite Forall_map. rewrite Forall_forall in *.
      intros e He. apply (eliminate_sat p e u0 u' n); auto. }
    subst u'. f_equal. unfold sat in Sp.
    rewrite (dotp_cons_row _ n) in Sp by exact Lp. rewrite <- Sp. field. exact Hp.
Qed.

Lemma repeat_cons_neq (a : Qc) (u : list Qc) (n : nat) :
  u <> repeat 0 n -> a :: u <> repeat 0 (S n).
Proof. simpl. intros H E. apply H. congruence. Qed.

Lemma gauss_None_kernel (n : nat) : forall (eqs : list equation),
  rows_n n eqs -> gauss n eqs = None ->
  exists u, length u = n /\ u <> repeat 0 n /\ Forall (hom u) eqs.
Proof.
  induction n as [|n IH]; intros eqs Hr; simpl; [discriminate|].
  destruct (pick_pivot eqs) as [[p others]|] eqn:Pk.
  - destruct (pick_pivot_Some _ _ _ Pk) as (Hp & Hlen & HP).
    assert (Hr' := proj1 (HP _) Hr). destruct Hr' as [Lp Lo].
    destruct (gauss n (map (eliminate p) others)) as [v'|] eqn:G; [discriminate|].
    intros _. destruct (IH _ (eliminate_rows _ _ _ Lp Lo) G) as (u & Lu & Nz & Hu).
    exists (- dotp (tl (fst p)) u / hd 0 (fst p) :: u).
    split; [cbn [length]; lia|]. split; [apply repeat_cons_neq; exact Nz|].
    apply HP. split.
    + unfold hom. rewrite (dotp_cons_row _ n) by exact Lp. field. exact Hp.
    + rewrite Forall_map in Hu. rewrite Forall_forall in *.
      intros e He. specialize (Hu e He). specialize (Lo e He). simpl in Lo.
      unfold hom in *. simpl in Hu.
      rewrite dotp_axpy in Hu by (rewrite !(tl_length _ n); auto).
      rewrite (dotp_cons_row _ n) by exact Lo.
      assert (E : dotp (tl (fst e)) u =
                  (dotp (tl (fst e)) u
                   - hd 0 (fst e) / hd 0 (fst p) * dotp (tl (fst p)) u)
                  + hd 0 (fst e) / hd 0 (fst p) * dotp (tl (fst p)) u) by ring.
      rewrite Hu in E. rewrite E. field. exact Hp.
  - intros _. apply pick_pivot_None in Pk.
    exists (1 :: repeat 0 n). split; [simpl; rewrite repeat_length; reflexivity|].
    split; [simpl; intros E; discriminate E|].
    unfold rows_n in Hr. rewrite Forall_forall in *. intros e He.
    unfold hom. rewrite (dotp_cons_row _ n) by (apply Hr; exact He).
    rewrite (Pk e He), dotp_zeros_r. ring.
Qed.

Lemma pick_pivot_fst (eqs eqs' : list equation) :
  map fst eqs = map fst eqs' ->
  match pick_pivot eqs, pick_pivot eqs' with
  | Some (p, o), Some (p', o') => fst p = fst p' /\ map fst o = map fst o'
  | None, None => True
  | _, _ => False
  end.
Proof.
  revert eqs'. induction eqs as [|e eqs IH]; intros [|e' eqs']; simpl;
    try discriminate; [trivial|].
  intros H. injection H as He Ht. rewrite <- He.
  destruct (is_zero (hd 0 (fst e))).
  - specialize (IH _ Ht).
    destruct (pick_pivot eqs) as [[p o]|], (pick_pivot eqs') as [[p' o']|];
      try contradiction; [|trivial].
    destruct IH as [Hp Ho]. split; [exact Hp | simpl; congruence].
  - split; assumption.
Qed.

Lemma eliminate_fst (p p' : equation) (o o' : list equation) :
  fst p = fst p' -> map fst o = map fst o' ->
  map fst (map (eliminate p) o) = map fst (map (eliminate p') o').
Proof.
  intros Hp. revert o'. induction o as [|e o IH]; intros [|e' o']; simpl;
    try discriminate; [reflexivity|].
  intros H. injection H as He Ht. rewrite Hp, He. f_equal. apply IH. exact Ht.
Qed.

Lemma gauss_rhs_indep (n : nat) : forall (eqs eqs' : list equation),
  map fst eqs = map fst eqs' -> gauss n eqs = None -> gauss n eqs' = None.
Proof.
  induction n as [|n IH]; intros eqs eqs' H; simpl; [discriminate|].
  pose proof (pick_pivot_fst _ _ H) as Pk.
  destruct (pick_pivot eqs) as [[p o]|], (pick_pivot eqs') as [[p' o']|];
    try contradiction; [|reflexivity].
  destruct Pk as [Hp Ho].
  destruct (gauss n (map (eliminate p) o)) as [v|] eqn:G; [discriminate|].
  intros _. rewrite (IH _ _ (eliminate_fst _ _ _ _ Hp Ho) G). reflexivity.
Qed.

Lemma gauss_Some_injective (n : nat) (eqs : list equation) (v u : list Qc) :
  rows_n n eqs -> gauss n eqs = Some v ->
  length u = n -> Forall (hom u) eqs -> u = repeat 0 n.
Proof.
  intros Hr G Lu Hu.
  set (eqs0 := map (fun e : equation => (fst e, 0)) eqs).
  assert (F : map fst eqs0 = map fst eqs).
  { unfold eqs0. rewrite map_map. reflexivity. }
  assert (Hr0 : rows_n n eqs0).
  { unfold rows_n, eqs0. rewrite Forall_map. exact Hr. }
  destruct (gauss n eqs0) as [z|] eqn:G0.
  - assert (Ez : repeat 0 n = z).
    { apply (gauss_unique n eqs0); auto; [apply repeat_length|].
      unfold eqs0. rewrite Forall_map. apply Forall_forall. intros e _.
      unfold sat. simpl. apply dotp_zeros_r. }
    rewrite Ez. apply (gauss_unique n eqs0); auto.
    unfold eqs0. rewrite Forall_map. exact Hu.
  - rewrite (gauss_rhs_indep n eqs0 eqs F G0) in G. discriminate.
Qed.

(** ** Arrays *)

Lemma map_nth_seq {A : Type} (l : list A) (d : A) :
  map (fun j => nth j l d) (seq 0 (length l)) = l.
Proof.
  induction l as [|a l IH]; [reflexivity|].
  cbn [length seq map nth]. f_equal.
  rewrite <- seq_shift, map_map. exact IH.
Qed.

Lemma delete_from_map {A B : Type} (f : A -> B) (idx : list nat) (l : list A) :
  forall i, delete_from i idx (map f l) = map f (delete_from i idx l).
Proof.
  induction l as [|a l IH]; intros i; simpl; [reflexivity|].
  destruct (mem i idx); simpl; rewrite IH; reflexivity.
Qed.

Lemma np_delete_column (v : list Qc) (idx : list nat) :
  np_delete (column v) idx = column (delete_from 0 idx v).
Proof.
  unfold np_delete, column. simpl. rewrite delete_from_map. reflexivity.
Qed.

Lemma slice_column (v : list Qc) (a b : nat) :
  slice (column v) a b = column (firstn (b - a) (skipn a v)).
Proof.
  unfold slice, column. simpl. rewrite skipn_map, firstn_map. reflexivity.
Qed.

Lemma transpose_column (v : list Qc) : rws (transpose (column v)) = [v].
Proof.
  unfold transpose, column. simpl. rewrite map_map. simpl.
  rewrite map_id. reflexivity.
Qed.

Lemma transpose_row (v : list Qc) (n : nat) :
  length v = n -> transpose (Arr n [v]) = column v.
Proof.
  intros <-. unfold transpose, column, nrow. simpl. f_equal.
  rewrite <- (map_nth_seq v 0) at 2. rewrite map_map. reflexivity.
Qed.

Lemma dot_column (A : ndarray) (v : list Qc) :
  ncol A = length v ->
  dot A (column v) = OK (column (map (fun r => dotp r v) (rws A))).
Proof.
  intros H. unfold dot. rewrite transpose_column.
  replace (nrow (column v)) with (length v)
    by (unfold nrow, column; simpl; rewrite length_map; reflexivity).
  rewrite H, Nat.eqb_refl. unfold column. simpl. rewrite map_map. reflexivity.
Qed.

Lemma dot_column_mismatch (A : ndarray) (v : list Qc) :
  ncol A <> length v -> dot A (column v) = Raise ValueError.
Proof.
  intros H. unfold dot.
  replace (nrow (column v)) with (length v)
    by (unfold nrow, column; simpl; rewrite length_map; reflexivity).
  apply Nat.eqb_neq in H. rewrite H. reflexivity.
Qed.

Lemma dot_gram (A : ndarray) :
  dot (transpose A) A = OK (Arr (ncol A) (gram (rws (transpose A)))).
Proof.
  unfold dot. change (ncol (transpose A)) with (nrow A).
  rewrite Nat.eqb_refl. reflexivity.
Qed.

Lemma combine_map_fst {A B : Type} (l : list A) (l' : list B) :
  length l = length l' -> map fst (combine l l') = l.
Proof.
  revert l'. induction l as [|a l IH]; intros [|b l']; simpl;
    try discriminate; [reflexivity|].
  intros H. f_equal. apply IH. lia.
Qed.

Lemma rows_n_combine (a : ndarray) (bs : list Qc) :
  wf a -> rows_n (ncol a) (combine (rws a) bs).
Proof.
  unfold wf, rows_n. generalize (ncol a) as n. intros n.
  generalize (rws a) as rows. intros rows. revert bs.
  induction rows as [|r rows IH]; intros [|b bs] H; simpl; try constructor.
  - inversion H; assumption.
  - apply IH. inversion H; assumption.
Qed.

(** [np.linalg.solve] on a square system with a one-column right-hand side. *)
Lemma solve_column (a : ndarray) (bs : list Qc) :
  wf a -> nrow a = ncol a -> length bs = nrow a ->
  solve a (column bs) =
  match gauss (nrow a) (combine (rws a) bs) with
  | Some v => OK (column v)
  | None => Raise LinAlgError
  end.
Proof.
  intros W Sq Lb. unfold solve.
  rewrite Sq at 1. rewrite Nat.eqb_refl. cbn [negb].
  replace (nrow (column bs)) with (length bs)
    by (unfold nrow, column; simpl; rewrite length_map; reflexivity).
  rewrite Lb, Nat.eqb_refl. cbn [negb].
  rewrite transpose_column. cbn [solve_columns].
  assert (F : map fst (combine (rws a) (repeat 0 (nrow a)))
              = map fst (combine (rws a) bs)).
  { rewrite !combine_map_fst; auto. rewrite repeat_length. reflexivity. }
  destruct (gauss (nrow a) (combine (rws a) bs)) as [v|] eqn:G.
  - destruct (gauss (nrow a) (combine (rws a) (repeat 0 (nrow a)))) eqn:G0.
    + f_equal. apply transpose_row.
      assert (Lc : length (combine (rws a) bs) = nrow a)
        by (rewrite length_combine; unfold nrow in *; lia).
      assert (Hr : rows_n (nrow a) (combine (rws a) bs))
        by (rewrite Sq; apply rows_n_combine; exact W).
      exact (proj1 (gauss_sound _ _ _ Lc Hr G)).
    + rewrite (gauss_rhs_indep _ _ _ F G0) in G. discriminate.
  - destruct (gauss (nrow a) (combine (rws a) (repeat 0 (nrow a))));
      reflexivity.
Qed.

Lemma Forall_combine_fst {A B : Type} (P : A -> Prop) (l : list A) (l' : list B) :
  length l = length l' ->
  Forall (fun e => P (fst e)) (combine l l') -> Forall P l.
Proof.
  revert l'. induction l as [|a l IH]; intros [|b l']; simpl;
    try discriminate; [constructor|].
  intros H F. inversion F; subst. constructor; [assumption|].
  apply (IH l'); [lia | assumption].
Qed.

Lemma Forall_fst_combine {A B : Type} (P : A -> Prop) (l : list A) (l' : list B) :
  Forall P l -> Forall (fun e => P (fst e)) (combine l l').
Proof.
  revert l'. induction l as [|a l IH]; intros [|b l'] F; simpl;
    try constructor; inversion F; subst; auto.
Qed.

Lemma sat_combine (rows : list (list Qc)) (bs v : list Qc) :
  length bs = length rows ->
  Forall (sat v) (combine rows bs) -> map (fun r => dotp r v) rows = bs.
Proof.
  revert bs. induction rows as [|r rows IH]; intros [|b bs]; simpl;
    try discriminate; [reflexivity|].
  intros H F. inversion F as [|? ? Hs Ht]; subst. unfold sat in Hs. simpl in Hs.
  f_equal; [exact Hs|]. apply IH; [lia | exact Ht].
Qed.

Lemma solve_OK (a : ndarray) (bs : list Qc) (w : ndarray) :
  wf a -> nrow a = ncol a -> length bs = nrow a ->
  solve a (column bs) = OK w ->
  exists v, w = column v /\ length v = ncol a /\
            map (fun r => dotp r v) (rws a) = bs /\ ~ singular a.
Proof.
  intros W Sq Lb. rewrite solve_column by assumption.
  destruct (gauss (nrow a) (combine (rws a) bs)) as [v|] eqn:G; [|discriminate].
  intros H; injection H as <-. exists v.
  assert (Hr : rows_n (nrow a) (combine (rws a) bs))
    by (rewrite Sq; apply rows_n_combine; exact W).
  assert (Lc : length (combine (rws a) bs) = nrow a)
    by (rewrite length_combine; unfold nrow in *; lia).
  destruct (gauss_sound _ _ _ Lc Hr G) as [Lv Sv].
  split; [reflexivity|]. split; [lia|]. split.
  - apply sat_combine; [exact Lb | exact Sv].
  - intros (u & Lu & Nz & Hu). apply Nz. rewrite <- Sq.
    apply (gauss_Some_injective _ _ _ _ Hr G); [lia|].
    apply (Forall_fst_combine (fun r => dotp r u = 0)). exact Hu.
Qed.

Lemma solve_Raise (a : ndarray) (bs : list Qc) (e : exn) :
  wf a -> nrow a = ncol a -> length bs = nrow a ->
  solve a (column bs) = Raise e -> e = LinAlgError /\ singular a.
Proof.
  intros W Sq Lb. rewrite solve_column by assumption.
  destruct (gauss (nrow a) (combine (rws a) bs)) as [v|] eqn:G; [discriminate|].
  intros H; injection H as <-. split; [reflexivity|].
  assert (Hr : rows_n (nrow a) (combine (rws a) bs))
    by (rewrite Sq; apply rows_n_combine; exact W).
  destruct (gauss_None_kernel _ _ Hr G) as (u & Lu & Nz & Hu).
  exists u. rewrite <- Sq. split; [exact Lu|]. split; [exact Nz|].
  apply (Forall_combine_fst (fun r => dotp r u = 0) (rws a) bs);
    [unfold nrow in *; lia | exact Hu].
Qed.

(** ** Loss tables *)

Lemma zeros_shape (r c : nat) : shape (zeros r c) r c.
Proof.
  unfold shape, zeros. split; [apply repeat_length|].
  apply Forall_forall. intros row H. apply repeat_spec in H. subst row.
  apply repeat_length.
Qed.

Lemma set_nth_spec {A : Type} (l : list A) : forall (i : nat) (v : A),
  (i < length l)%nat ->
  exists l', set_nth i v l = Some l' /\ length l' = length l /\
             nth_error l' i = Some v /\
             forall j, j <> i -> nth_error l' j = nth_error l j.
Proof.
  induction l as [|a l IH]; intros i v H; simpl in H; [lia|].
  destruct i as [|i]; simpl.
  - exists (v :: l). repeat split. intros [|j] Hj; [contradiction | reflexivity].
  - destruct (IH i v ltac:(lia)) as (l' & E & Hl & Hn & Ho). rewrite E.
    exists (a :: l'). repeat split; simpl; auto.
    intros [|j] Hj; [reflexivity | apply Ho; lia].
Qed.

Lemma set_nth_Forall {A : Type} (P : A -> Prop) (l l' : list A) (i : nat) (v : A) :
  set_nth i v l = Some l' -> P v -> Forall P l -> Forall P l'.
Proof.
  revert i l'. induction l as [|a l IH]; intros i l';
    [destruct i; intros H; discriminate H|].
  destruct i as [|i]; simpl.
  - intros H; injection H as <-. intros Pv F. inversion F; subst.
    constructor; assumption.
  - destruct (set_nth i v l) as [l''|] eqn:E; [|discriminate].
    intros H; injection H as <-. intros Pv F. inversion F; subst.
    constructor; [assumption | eapply IH; eauto].
Qed.

Lemma set2_spec (tbl : table) (r c i j : nat) (v : fval) :
  shape tbl r c -> (i < r)%nat -> (j < c)%nat ->
  exists tbl', set2 tbl i j v = OK tbl' /\ shape tbl' r c /\
               get2 tbl' i j = Some v /\
               forall i' j', (i', j') <> (i, j) ->
                             get2 tbl' i' j' = get2 tbl i' j'.
Proof.
  intros [Hr Hc] Hi Hj. unfold set2.
  destruct (nth_error tbl i) as [row|] eqn:Er;
    [|apply nth_error_None in Er; lia].
  assert (Lrow : length row = c).
  { rewrite Forall_forall in Hc. apply Hc. eapply nth_error_In; eauto. }
  destruct (set_nth_spec row j v ltac:(lia)) as (row' & E1 & L1 & N1 & O1).
  rewrite E1.
  destruct (set_nth_spec tbl i row' ltac:(lia)) as (tbl' & E2 & L2 & N2 & O2).
  rewrite E2. exists tbl'. split; [reflexivity|]. split; [|split].
  - split; [lia|]. eapply set_nth_Forall; eauto. lia.
  - unfold get2. rewrite N2. exact N1.
  - intros i' j' Hne. unfold get2. destruct (Nat.eq_dec i' i) as [->|Hi'].
    + rewrite N2, Er. apply O1. intros ->. apply Hne. reflexivity.
    + rewrite (O2 i' Hi'). reflexivity.
Qed.

Lemma get2_shape (tbl : table) (r c i j : nat) :
  shape tbl r c -> (i < r)%nat -> (j < c)%nat -> exists v, get2 tbl i j = Some v.
Proof.
  intros [Hr Hc] Hi Hj. unfold get2.
  destruct (nth_error tbl i) as [row|] eqn:Er;
    [|apply nth_error_None in Er; lia].
  assert (Lrow : length row = c).
  { rewrite Forall_forall in Hc. apply Hc. eapply nth_error_In; eauto. }
  destruct (nth_error row j) as [v|] eqn:Ev; [eauto|].
  apply nth_error_None in Ev. lia.
Qed.

Lemma fold_body_spec (t t_test : ndarray) (c_sizes : list Z)
      (X X_test : ndarray) (r c k fold : nat) (L : losses) :
  shapes L r c -> (fold < r)%nat -> (k < c)%nat ->
  match fold_body t t_test c_sizes X X_test k fold L with
  | OK L' =>
      shapes L' r c /\
      (exists v, cell_losses t t_test c_sizes X X_test fold = OK v /\
                 entry L' fold k = Some v) /\
      (forall f' k', (f', k') <> (fold, k) -> entry L' f' k' = entry L f' k')
  | Raise e => cell_losses t t_test c_sizes X X_test fold = Raise e
  end.
Proof.
  intros (S1 & S2 & S3) Hf Hk. unfold fold_body, cell_losses.
  do 5 (step_bind; [|reflexivity]).
  match goal with |- context [set2 (cv_loss L) fold k ?v] =>
    destruct (set2_spec _ _ _ _ _ v S1 Hf Hk) as (t1 & E1 & Sh1 & G1 & O1) end.
  rewrite E1. cbn [bind].
  do 2 (step_bind; [|reflexivity]).
  match goal with |- context [set2 (ind_loss L) fold k ?v] =>
    destruct (set2_spec _ _ _ _ _ v S2 Hf Hk) as (t2 & E2 & Sh2 & G2 & O2) end.
  rewrite E2. cbn [bind].
  do 2 (step_bind; [|reflexivity]).
  match goal with |- context [set2 (train_loss L) fold k ?v] =>
    destruct (set2_spec _ _ _ _ _ v S3 Hf Hk) as (t3 & E3 & Sh3 & G3 & O3) end.
  rewrite E3. cbn [bind].
  split; [exact (conj Sh1 (conj Sh2 Sh3))|]. split.
  - eexists. split; [reflexivity|]. unfold entry. cbn [cv_loss ind_loss train_loss].
    rewrite G1, G2, G3. reflexivity.
  - intros f' k' Hne. unfold entry. cbn [cv_loss ind_loss train_loss].
    rewrite (O1 _ _ Hne), (O2 _ _ Hne), (O3 _ _ Hne). reflexivity.
Qed.

(** ** The loops *)

Lemma fold_loop_spec (t t_test : ndarray) (c_sizes : list Z)
      (X X_test : ndarray) (r c k : nat) :
  (k < c)%nat ->
  forall (folds : list nat) (L : losses),
    shapes L r c -> Forall (fun f => (f < r)%nat) folds -> NoDup folds ->
    match fold_loop t t_test c_sizes X X_test k folds L with
    | OK L' =>
        shapes L' r c /\
        (forall f, In f folds ->
                   exists v, cell_losses t t_test c_sizes X X_test f = OK v /\
                             entry L' f k = Some v) /\
        (forall f' k', ~ (In f' folds /\ k' = k) ->
                       entry L' f' k' = entry L f' k')
    | Raise e =>
        exists f, In f folds /\
                  cell_losses t t_test c_sizes X X_test f = Raise e
    end.
Proof.
  intros Hk. induction folds as [|f folds IH]; intros L SL Hf Nd; cbn [fold_loop].
  - split; [exact SL|]. split; [intros f []|reflexivity].
  - inversion Hf as [|? ? Hf0 Hfs]; subst. inversion Nd as [|? ? Nin Nd']; subst.
    pose proof (fold_body_spec t t_test c_sizes X X_test r c k f L SL Hf0 Hk) as B.
    destruct (fold_body t t_test c_sizes X X_test k f L) as [L1|e]; cbn [bind].
    + destruct B as (S1 & (v & Cv & Ev) & Fr1).
      specialize (IH L1 S1 Hfs Nd').
      destruct (fold_loop t t_test c_sizes X X_test k folds L1) as [L'|e].
      * destruct IH as (S' & Hin & Fr'). split; [exact S'|]. split.
        -- intros f0 [<-|H0].
           ++ exists v. split; [exact Cv|]. rewrite Fr'; [exact Ev|].
              intros [H _]. contradiction.
           ++ apply Hin. exact H0.
        -- intros f' k' Hn. rewrite Fr'.
           ++ apply Fr1. intros E. injection E as -> ->. apply Hn.
              split; [left; reflexivity | reflexivity].
           ++ intros [H1 H2]. apply Hn. split; [right; exact H1 | exact H2].
      * destruct IH as (f0 & H0 & C0). exists f0. split; [right; exact H0 | exact C0].
    + exists f. split; [left; reflexivity | exact B].
Qed.

Lemma monomials_S (k : nat) (a : Qc) :
  monomials (S k) a = monomials k a ++ [a ^ (k + 1)].
Proof.
  unfold monomials. replace (S k + 1)%nat with (S (k + 1)) by lia.
  rewrite seq_S, map_app. reflexivity.
Qed.

Lemma zip_rows_map (f g : Qc -> list Qc) (v : list Qc) :
  zip_rows (map f v) (map g v) = map (fun a => f a ++ g a) v.
Proof.
  induction v as [|a v IH]; simpl; [reflexivity | rewrite IH; reflexivity].
Qed.

Lemma extend_design (v : list Qc) (k : nat) :
  extend (design v k) (column v) k = OK (design v (S k)).
Proof.
  unfold extend, hstack, design, column, pow, nrow. cbn [rws ncol].
  rewrite !length_map, Nat.eqb_refl. f_equal.
  replace (k + 1 + 1)%nat with (S k + 1)%nat by lia. f_equal.
  rewrite map_map. cbn [map]. rewrite zip_rows_map.
  apply map_ext. intros a. rewrite monomials_S. reflexivity.
Qed.

Lemma ones_like_column (v : list Qc) : ones_like (column v) = design v 0.
Proof.
  unfold ones_like, column, design. cbn [rws ncol]. rewrite map_map.
  reflexivity.
Qed.

Lemma order_loop_spec (xs xts : list Qc) (t t_test : ndarray) (K M : nat)
      (c_sizes : list Z) :
  forall (m k0 : nat) (L : losses),
    shapes L K M -> (k0 + m <= M)%nat ->
    match order_loop (column xs) t (column xts) t_test K c_sizes (seq k0 m)
                     (design xs k0) (design xts k0) L with
    | OK L' =>
        shapes L' K M /\
        (forall k f, (k0 <= k < k0 + m)%nat -> (f < K)%nat ->
           exists v, cell_losses t t_test c_sizes (design xs k) (design xts k) f
                     = OK v /\ entry L' f k = Some v) /\
        (forall f' k', ~ (k0 <= k' < k0 + m)%nat ->
                       entry L' f' k' = entry L f' k')
    | Raise e =>
        exists k f, (k0 <= k < k0 + m)%nat /\ (f < K)%nat /\
          cell_losses t t_test c_sizes (design xs k) (design xts k) f = Raise e
    end.
Proof.
  induction m as [|m IH]; intros k0 L SL Hm; cbn [seq order_loop].
  - split; [exact SL|]. split; [intros; lia | reflexivity].
  - assert (Hk : (k0 < M)%nat) by lia.
    assert (Hf : Forall (fun f => (f < K)%nat) (seq 0 K)).
    { apply Forall_forall. intros f H. apply in_seq in H. lia. }
    pose proof (fold_loop_spec t t_test c_sizes (design xs k0) (design xts k0)
                  K M k0 Hk (seq 0 K) L SL Hf (seq_NoDup K 0)) as B.
    destruct (fold_loop t t_test c_sizes (design xs k0) (design xts k0) k0
                (seq 0 K) L) as [L1|e]; cbn [bind].
    + destruct B as (S1 & Hin & Fr1).
      rewrite !extend_design. cbn [bind].
      specialize (IH (S k0) L1 S1 ltac:(lia)).
      destruct (order_loop (column xs) t (column xts) t_test K c_sizes
                  (seq (S k0) m) (design xs (S k0)) (design xts (S k0)) L1)
        as [L'|e].
      * destruct IH as (S' & Hc & Fr'). split; [exact S'|]. split.
        -- intros k f Hkr Hfr. destruct (Nat.eq_dec k k0) as [->|Hne].
           ++ destruct (Hin f) as (v & Cv & Ev); [apply in_seq; lia|].
              exists v. split; [exact Cv|]. rewrite Fr' by lia. exact Ev.
           ++ apply Hc; [lia | exact Hfr].
        -- intros f' k' Hn. rewrite Fr' by lia. apply Fr1. intros [_ ->]. lia.
      * destruct IH as (k & f & Hkr & Hfr & C). exists k, f.
        split; [lia|]. split; assumption.
    + destruct B as (f & Hfin & C). apply in_seq in Hfin. exists k0, f.
      split; [lia|]. split; [lia | exact C].
Qed.

Lemma c_sizes_0 (N : nat) : c_sizes N 0 = Raise IndexError.
Proof. reflexivity. Qed.

Lemma c_sizes_S (N K : nat) : exists c, c_sizes N (S K) = OK c.
Proof.
  unfold c_sizes. rewrite sizes_S. cbn [bind]. eauto.
Qed.

(** The outcome of the sweep, cell by cell. *)
Theorem evaluate_spec (x t xt tt : list Qc) (mo K : nat) :
  match evaluate x t xt tt mo K with
  | OK L =>
      shapes L K (mo + 1) /\
      forall k f, (k <= mo)%nat -> (f < K)%nat ->
        exists v, cell x t xt tt K k f = OK v /\ entry L f k = Some v
  | Raise e =>
      (K = 0%nat /\ e = IndexError) \/
      exists k f, (k <= mo)%nat /\ (f < K)%nat /\ cell x t xt tt K k f = Raise e
  end.
Proof.
  unfold evaluate, cell3, cell. destruct K as [|K].
  - left. split; reflexivity.
  - destruct (c_sizes_S (length x) K) as [c Ec]. rewrite Ec. cbn [bind].
    rewrite !ones_like_column.
    set (L0 := Losses _ _ _).
    assert (S0 : shapes L0 (S K) (mo + 1)).
    { unfold shapes, L0. cbn [cv_loss ind_loss train_loss].
      split; [|split]; apply zeros_shape. }
    pose proof (order_loop_spec x xt (column t) (column tt) (S K) (mo + 1) c
                  (mo + 1) 0 L0 S0 ltac:(lia)) as B.
    destruct (order_loop (column x) (column t) (column xt) (column tt) (S K) c
                (seq 0 (mo + 1)) (design x 0) (design xt 0) L0) as [L|e].
    + destruct B as (SL & Hc & _). split; [exact SL|].
      intros k f Hk Hf. apply Hc; [lia | exact Hf].
    + right. destruct B as (k & f & Hk & Hf & C). exists k, f.
      split; [lia|]. split; assumption.
Qed.

(** ** One cell on well-shaped inputs *)

Lemma delete_from_length {A B : Type} (idx : list nat) (l : list A) (l' : list B) :
  length l = length l' ->
  forall i, length (delete_from i idx l) = length (delete_from i idx l').
Proof.
  revert l'. induction l as [|a l IH]; intros [|b l']; simpl;
    try discriminate; [reflexivity|].
  intros H i. destruct (mem i idx); simpl; rewrite (IH l') by lia; reflexivity.
Qed.

Lemma gram_wf (d : nat) (cols : list (list Qc)) :
  length cols = d -> wf (Arr d (gram cols)).
Proof.
  intros H. unfold wf, gram. cbn [rws ncol]. rewrite Forall_map.
  apply Forall_forall. intros r _. rewrite length_map. exact H.
Qed.

Lemma columns_length (d : nat) (rows : list (list Qc)) :
  length (columns d rows) = d.
Proof. unfold columns. rewrite length_map, length_seq. reflexivity. Qed.

Lemma transpose_rws (d : nat) (rows : list (list Qc)) :
  rws (transpose (Arr d rows)) = columns d rows.
Proof. reflexivity. Qed.

Lemma normal_matrix_dot (d : nat) (A : list (list Qc)) :
  dot (transpose (Arr d A)) (Arr d A) = OK (normal_matrix d A).
Proof. apply dot_gram. Qed.

Lemma normal_rhs_dot (d : nat) (A : list (list Qc)) (y : list Qc) :
  length y = length A ->
  dot (transpose (Arr d A)) (column y) = OK (column (normal_rhs d A y)).
Proof.
  intros H. rewrite dot_column; [reflexivity|].
  cbn [transpose ncol]. unfold nrow. cbn [rws]. symmetry. exact H.
Qed.

Lemma normal_matrix_square (d : nat) (A : list (list Qc)) :
  wf (normal_matrix d A) /\ nrow (normal_matrix d A) = d /\
  ncol (normal_matrix d A) = d.
Proof.
  split; [apply gram_wf, columns_length|]. split; [|reflexivity].
  unfold nrow, normal_matrix, gram. cbn [rws].
  rewrite length_map. apply columns_length.
Qed.

Lemma normal_rhs_length (d : nat) (A : list (list Qc)) (y : list Qc) :
  length (normal_rhs d A y) = d.
Proof.
  unfold normal_rhs, predict. rewrite length_map. apply columns_length.
Qed.

(** The fit of one fold is the solution of the normal equations of its
    training subset. *)
Lemma fit_solve (t : list Qc) (d : nat) (rows : list (list Qc)) (a b : nat) :
  length (training a b t) = length (training a b rows) ->
  fit (column t) (Arr d rows) a b =
  solve (normal_matrix d (training a b rows))
        (column (normal_rhs d (training a b rows) (training a b t))).
Proof.
  intros Lt. unfold fit. rewrite np_delete_column.
  unfold np_delete. cbn [rws ncol]. fold (training a b rows).
  fold (training a b t).
  rewrite normal_matrix_dot. cbn [bind].
  rewrite normal_rhs_dot by exact Lt. reflexivity.
Qed.

Lemma fit_mismatch (t : list Qc) (d : nat) (rows : list (list Qc)) (a b : nat) :
  length (training a b t) <> length (training a b rows) ->
  fit (column t) (Arr d rows) a b = Raise ValueError.
Proof.
  intros Lt. unfold fit. rewrite np_delete_column.
  unfold np_delete. cbn [rws ncol]. fold (training a b rows).
  fold (training a b t).
  rewrite normal_matrix_dot. cbn [bind].
  rewrite dot_column_mismatch; [reflexivity|].
  cbn [transpose ncol]. unfold nrow. cbn [rws]. congruence.
Qed.

Lemma fit_valid (t : list Qc) (d : nat) (rows : list (list Qc)) (a b : nat) :
  length (training a b t) = length (training a b rows) ->
  fit (column t) (Arr d rows) a b =
  match gauss d (combine (gram (columns d (training a b rows)))
                         (predict (columns d (training a b rows))
                                  (training a b t))) with
  | Some w => OK (column w)
  | None => Raise LinAlgError
  end.
Proof.
  intros Lt. rewrite fit_solve by exact Lt.
  destruct (normal_matrix_square d (training a b rows)) as (W & Hr & Hc).
  rewrite solve_column; [rewrite Hr; reflexivity | exact W | congruence |].
  rewrite normal_rhs_length. congruence.
Qed.

Lemma fit_OK (t : list Qc) (d : nat) (rows : list (list Qc)) (a b : nat)
      (W : ndarray) :
  length (training a b t) = length (training a b rows) ->
  fit (column t) (Arr d rows) a b = OK W ->
  exists w, W = column w /\ length w = d /\
            predict (rws (normal_matrix d (training a b rows))) w
            = normal_rhs d (training a b rows) (training a b t) /\
            ~ singular (normal_matrix d (training a b rows)).
Proof.
  intros Lt. rewrite fit_solve by exact Lt.
  destruct (normal_matrix_square d (training a b rows)) as (Wf & Hr & Hc).
  intros H. apply solve_OK in H; [exact H | exact Wf | congruence |].
  rewrite normal_rhs_length. congruence.
Qed.

Lemma fit_Raise (t : list Qc) (d : nat) (rows : list (list Qc)) (a b : nat)
      (e : exn) :
  length (training a b t) = length (training a b rows) ->
  fit (column t) (Arr d rows) a b = Raise e ->
  e = LinAlgError /\ singular (normal_matrix d (training a b rows)).
Proof.
  intros Lt. rewrite fit_solve by exact Lt.
  destruct (normal_matrix_square d (training a b rows)) as (Wf & Hr & Hc).
  intros H. apply solve_Raise in H; [exact H | exact Wf | congruence |].
  rewrite normal_rhs_length. congruence.
Qed.

Lemma cumsum_from_nth (q z : Z) (n : nat) : forall (acc : Z) (i : nat),
  nth_error (cumsum_from acc (repeat q n ++ [z])) i =
  if (i <? n)%nat then Some (acc + Z.of_nat (i + 1) * q)%Z
  else if (i =? n)%nat then Some (acc + Z.of_nat n * q + z)%Z
  else None.
Proof.
  induction n as [|n IH]; intros acc i.
  - cbn [repeat app cumsum_from]. destruct i as [|i];
      cbn [nth_error Nat.ltb Nat.leb Nat.eqb].
    + f_equal. lia.
    + destruct i; reflexivity.
  - cbn [repeat app cumsum_from]. destruct i as [|i].
    + cbn [nth_error Nat.ltb Nat.leb Nat.eqb]. f_equal. lia.
    + cbn [nth_error]. rewrite IH.
      change (S i <? S n)%nat with (i <? n)%nat.
      change (S i =? S n)%nat with (i =? n)%nat.
      destruct (i <? n)%nat; [f_equal; lia|].
      destruct (i =? n)%nat; [f_equal; lia | reflexivity].
Qed.

Lemma c_sizes_index (N K f : nat) (c : list Z) :
  c_sizes N K = OK c -> (f < K)%nat ->
  index c f = OK (Z.of_nat (fold_start N f)) /\
  index c (f + 1) = OK (Z.of_nat (fold_stop N K f)).
Proof.
  destruct K as [|K]; [discriminate|].
  unfold c_sizes. rewrite sizes_S. cbn [bind].
  unfold index, cumsum, fold_start, fold_stop.
  generalize (N / 10)%nat as q. intros q.
  intros H; injection H as <-. intros Hf. split.
  - destruct f as [|f]; [reflexivity|]. cbn [nth_error].
    rewrite cumsum_from_nth.
    destruct (Nat.ltb_spec f K); [|lia].
    replace (f + 1)%nat with (S f) by lia. rewrite Nat2Z.inj_mul.
    do 2 f_equal.
  - replace (f + 1)%nat with (S f) by lia. cbn [nth_error].
    rewrite cumsum_from_nth. change (S f =? S K)%nat with (f =? K)%nat.
    destruct (Nat.ltb_spec f K).
    + destruct (Nat.eqb_spec f K); [lia|].
      replace (f + 1)%nat with (S f) by lia. rewrite Nat2Z.inj_mul.
      do 2 f_equal.
    + destruct (Nat.eqb_spec f K); [|lia]. do 2 f_equal. subst f. lia.
Qed.

Lemma nth_column (p : list Qc) (i : nat) :
  (i < length p)%nat -> nth i (map (fun a => [a]) p) [] = [nth i p 0].
Proof.
  intros H. rewrite (nth_indep _ [] [0]) by (rewrite length_map; exact H).
  apply (map_nth (fun a : Qc => [a])).
Qed.

Lemma bget_column (p : list Qc) (i : nat) :
  (i < length p)%nat -> bget (column p) i 0 = nth i p 0.
Proof.
  intros H. unfold bget, column, nrow, bidx. cbn [rws ncol Nat.eqb].
  rewrite length_map.
  assert (E : (if (length p =? 1)%nat then 0%nat else i) = i).
  { destruct (Nat.eqb_spec (length p) 1); [lia | reflexivity]. }
  rewrite E, nth_column by exact H. reflexivity.
Qed.

Lemma seq_diffs (p q : list Qc) :
  length p = length q ->
  map (fun i => [nth i p 0 - nth i q 0]) (seq 0 (length p)) =
  map (fun ab => [fst ab - snd ab]) (combine p q).
Proof.
  revert q. induction p as [|a p IH]; intros [|b q]; simpl;
    try discriminate; [reflexivity|].
  intros H. f_equal. rewrite <- seq_shift, map_map. apply IH. lia.
Qed.

Lemma sub_column (p q : list Qc) :
  length p = length q ->
  sub (column p) (column q) =
  OK (column (map (fun ab => fst ab - snd ab) (combine p q))).
Proof.
  intros H. unfold sub.
  replace (nrow (column p)) with (length p)
    by (unfold nrow, column; simpl; rewrite length_map; reflexivity).
  replace (nrow (column q)) with (length p)
    by (unfold nrow, column; simpl; rewrite length_map; exact H).
  unfold bdim at 1. rewrite Nat.eqb_refl.
  change (bdim (ncol (column p)) (ncol (column q))) with (Some 1%nat).
  cbn [seq map]. unfold column at 3. f_equal. f_equal.
  rewrite map_map. rewrite <- seq_diffs by exact H.
  apply map_ext_in. intros i Hi. apply in_seq in Hi.
  rewrite !bget_column by lia. reflexivity.
Qed.

Lemma mean_column (d : list Qc) :
  mean (pow (column d) 2) =
  match map (fun a => a ^ 2) d with
  | [] => NaN
  | els => Fin (sum els / of_nat (length els))
  end.
Proof.
  unfold mean, pow, column. cbn [rws ncol]. rewrite !map_map. cbn [map].
  replace (concat (map (fun x => [x ^ 2]) d)) with (map (fun a => a ^ 2) d);
    [reflexivity|].
  induction d as [|a d IH]; cbn [map concat app];
    [reflexivity | rewrite IH; reflexivity].
Qed.

Lemma mse_column (p q : list Qc) :
  length p = length q -> mse (column p) (column q) = OK (mean_sq p q).
Proof.
  intros H. unfold mse. rewrite sub_column by exact H. cbn [bind].
  rewrite mean_column, map_map. reflexivity.
Qed.

Lemma design_wf (v : list Qc) (k : nat) : wf (design v k).
Proof.
  unfold wf, design. cbn [rws ncol]. rewrite Forall_map.
  apply Forall_forall. intros a _. unfold monomials.
  rewrite length_map, length_seq. reflexivity.
Qed.

Lemma cell_valid (x t xt tt : list Qc) (K k f : nat) :
  length t = length x -> length tt = length xt -> (f < K)%nat ->
  cell x t xt tt K k f =
  (W <- fit (column t) (design x k) (fold_start (length x) f)
            (fold_stop (length x) K f) ;;
   OK (cell_of_fit x t xt tt K k f (map (hd 0) (rws W)))).
Proof.
  intros Lt Ltt Hf. unfold cell.
  destruct (c_sizes (length x) K) as [c|e] eqn:Ec.
  2:{ destruct K; [lia|]. destruct (c_sizes_S (length x) K) as [c Ec'].
      congruence. }
  destruct (c_sizes_index _ _ _ _ Ec Hf) as [Ia Ib].
  cbn [bind]. unfold cell_losses. rewrite Ia, Ib. cbn [bind].
  rewrite !Nat2Z.id.
  set (a := fold_start (length x) f). set (b := fold_stop (length x) K f).
  assert (Ltr : length (training a b t)
                = length (training a b (map (monomials k) x))).
  { apply delete_from_length. rewrite length_map. exact Lt. }
  pose proof (fit_valid t (k + 1) (map (monomials k) x) a b Ltr) as Hfit.
  fold (design x k) in Hfit. rewrite Hfit.
  destruct (gauss _ _) as [w|] eqn:G; [|reflexivity]. cbn [bind].
  assert (Lw : length w = (k + 1)%nat).
  { refine (proj1 (gauss_sound _ _ _ _ _ G)).
    - unfold equation. rewrite length_combine. unfold gram, predict.
      rewrite !length_map, columns_length. lia.
    - apply (rows_n_combine (Arr (k + 1) _)). apply gram_wf.
      apply columns_length. }
  assert (E : map (hd 0) (rws (column w)) = w).
  { unfold column. cbn [rws]. rewrite map_map. cbn [hd]. apply map_id. }
  rewrite E.
  rewrite dot_column by (cbn [slice design ncol]; lia). cbn [bind].
  rewrite slice_column, mse_column.
  2:{ unfold slice, design. cbn [rws]. rewrite length_map.
      rewrite !length_firstn, !length_skipn, length_map. lia. }
  cbn [bind]. rewrite dot_column by (cbn [design ncol]; lia). cbn [bind].
  rewrite mse_column
    by (unfold design; cbn [rws]; rewrite !length_map; lia).
  cbn [bind]. rewrite dot_column by (cbn [np_delete design ncol]; lia).
  cbn [bind]. rewrite np_delete_column, mse_column.
  2:{ rewrite length_map. unfold np_delete, design. cbn [rws].
      apply delete_from_length. rewrite length_map. lia. }
  cbn [bind]. reflexivity.
Qed.

Lemma fit_singular (t : list Qc) (d : nat) (rows : list (list Qc)) (a b : nat) :
  length (training a b t) = length (training a b rows) ->
  singular (normal_matrix d (training a b rows)) ->
  fit (column t) (Arr d rows) a b = Raise LinAlgError.
Proof.
  intros Lt Sg. destruct (fit (column t) (Arr d rows) a b) as [W|e] eqn:F.
  - apply fit_OK in F; [|exact Lt]. destruct F as (w & _ & _ & _ & Ns).
    contradiction.
  - apply fit_Raise in F; [|exact Lt]. destruct F as [-> _]. reflexivity.
Qed.

Lemma cell_fit_Raise (x t xt tt : list Qc) (K k f : nat) (e : exn) :
  (f < K)%nat ->
  fit (column t) (design x k) (fold_start (length x) f)
      (fold_stop (length x) K f) = Raise e ->
  cell x t xt tt K k f = Raise e.
Proof.
  intros Hf F. unfold cell.
  destruct (c_sizes (length x) K) as [c|e'] eqn:Ec.
  2:{ destruct K; [lia|]. destruct (c_sizes_S (length x) K) as [c Ec'].
      congruence. }
  destruct (c_sizes_index _ _ _ _ Ec Hf) as [Ia Ib].
  cbn [bind]. unfold cell_losses. rewrite Ia, Ib. cbn [bind].
  rewrite !Nat2Z.id, F. reflexivity.
Qed.

(** A failure of the first cell is the failure of the whole call. *)
Lemma evaluate_first_cell (x t xt tt : list Qc) (mo K : nat) (e : exn) :
  (1 <= K)%nat -> cell x t xt tt K 0 0 = Raise e ->
  evaluate x t xt tt mo K = Raise e.
Proof.
  intros HK. destruct K as [|K]; [lia|]. unfold evaluate, cell3, cell.
  destruct (c_sizes_S (length x) K) as [c Ec]. rewrite Ec. cbn [bind].
  rewrite !ones_like_column. intros C.
  set (L0 := Losses _ _ _).
  assert (S0 : shapes L0 (S K) (mo + 1)).
  { unfold shapes, L0. cbn [cv_loss ind_loss train_loss].
    split; [|split]; apply zeros_shape. }
  replace (mo + 1)%nat with (S mo) by lia. cbn [seq order_loop fold_loop].
  replace (S mo) with (mo + 1)%nat by lia.
  pose proof (fold_body_spec (column t) (column tt) c (design x 0) (design xt 0)
                (S K) (mo + 1) 0 0 L0 S0 ltac:(lia) ltac:(lia)) as B.
  destruct (fold_body (column t) (column tt) c (design x 0) (design xt 0) 0 0 L0)
    as [L1|e'].
  - destruct B as (_ & (v & Cv & _) & _). congruence.
  - cbn [bind]. congruence.
Qed.

Lemma mem_arange (i a b : nat) :
  mem i (arange a b) = ((a <=? i) && (i <? b))%nat.
Proof.
  unfold mem, arange.
  destruct ((a <=? i) && (i <? b))%nat eqn:E.
  - apply existsb_exists. exists i. split; [|apply Nat.eqb_refl].
    apply andb_true_iff in E. destruct E as [E1 E2].
    apply Nat.leb_le in E1. apply Nat.ltb_lt in E2. apply in_seq. lia.
  - destruct (existsb (Nat.eqb i) (seq a (b - a))) eqn:X; [|reflexivity].
    apply existsb_exists in X. destruct X as (j & Hj & Ej).
    apply Nat.eqb_eq in Ej. subst j. apply in_seq in Hj.
    apply andb_false_iff in E. destruct E as [E|E].
    + apply Nat.leb_gt in E. lia.
    + apply Nat.ltb_ge in E. lia.
Qed.

(** The training entries are those before the fold and those after it. *)
Lemma delete_from_arange {A : Type} (a b : nat) (l : list A) : forall i,
  delete_from i (arange a b) l =
  firstn (a - i) l ++ skipn (Nat.max a b - i) l.
Proof.
  induction l as [|r l IH]; intros i.
  - rewrite firstn_nil, skipn_nil. reflexivity.
  - cbn [delete_from]. rewrite mem_arange, IH.
    destruct (Nat.leb_spec a i) as [Hai|Hai];
      destruct (Nat.ltb_spec i b) as [Hib|Hib]; cbn [andb].
    + replace (a - S i)%nat with 0%nat by lia.
      replace (a - i)%nat with 0%nat by lia.
      replace (Nat.max a b - i)%nat with (S (Nat.max a b - S i)) by lia.
      reflexivity.
    + replace (a - S i)%nat with 0%nat by lia.
      replace (a - i)%nat with 0%nat by lia.
      replace (Nat.max a b - i)%nat with 0%nat by lia.
      replace (Nat.max a b - S i)%nat with 0%nat by lia. reflexivity.
    + replace (a - i)%nat with (S (a - S i)) by lia.
      replace (Nat.max a b - i)%nat with (S (Nat.max a b - S i)) by lia.
      reflexivity.
    + replace (a - i)%nat with (S (a - S i)) by lia.
      replace (Nat.max a b - i)%nat with (S (Nat.max a b - S i)) by lia.
      reflexivity.
Qed.

Lemma training_spec {A : Type} (a b : nat) (l : list A) :
  training a b l = firstn a l ++ skipn (Nat.max a b) l.
Proof.
  unfold training. rewrite delete_from_arange, !Nat.sub_0_r. reflexivity.
Qed.

Lemma training_all {A : Type} (n : nat) (l : list A) :
  (length l <= n)%nat -> training 0 n l = [].
Proof.
  intros H. rewrite training_spec. cbn [firstn app Nat.max].
  apply skipn_all2. exact H.
Qed.

Lemma dotp_zeros_l {A : Type} (l : list A) (u : list Qc) :
  dotp (map (fun _ => 0) l) u = 0.
Proof.
  revert u. induction l as [|a l IH]; intros [|b u]; cbn [map dotp];
    try reflexivity.
  rewrite IH. ring.
Qed.

(** With no training row the normal-equations matrix is the zero matrix. *)
Lemma normal_matrix_empty_singular (d : nat) :
  singular (normal_matrix (S d) []).
Proof.
  exists (1 :: repeat 0 d). cbn [normal_matrix ncol rws].
  split; [cbn [length]; rewrite repeat_length; reflexivity|].
  split; [cbn [repeat]; intros E; discriminate E|].
  unfold gram. rewrite Forall_map. apply Forall_forall. intros r Hr.
  unfold columns in Hr. apply in_map_iff in Hr. destruct Hr as (j & <- & _).
  cbn [map dotp]. apply dotp_zeros_l.
Qed.

(** * The fold partition *)

(** C2 (the code divides by the constant 10): on 20 training points and
    [K = 5] folds the code produces four folds of [floor(20/10) = 2] indices
    and a last fold of 12, where the balancing rule asks for five folds of
    [floor(20/5) = 4]; the first folds miss [floor(N/K)] although the
    rounding remainder is zero. *)
Theorem sizes_20_5 :
  sizes 20 5 = OK [2; 2; 2; 2; 12]%Z /\
  balanced_sizes 20 5 = [4; 4; 4; 4; 4]%Z /\
  (20 mod 5 = 0)%nat.
Proof. repeat split. Qed.

(** With [K = 10], the value the notebook uses, the code does follow the
    balancing rule. *)
Lemma sizes_10 (N : nat) : sizes N 10 = OK (balanced_sizes N 10).
Proof. rewrite sizes_S. reflexivity. Qed.

(** With twenty folds on a hundred points the constant 10 even gives the
    last fold a negative size. *)
Lemma sizes_100_20 :
  sizes 100 20 = OK (repeat 10%Z 19 ++ [(-90)%Z]).
Proof. reflexivity. Qed.

(** With [K = 10] the ten ranges are contiguous, start at 0 and end at [N]. *)
Lemma fold_ranges_10 (N f : nat) :
  (f < 10)%nat ->
  fold_start N 0 = 0%nat /\ fold_stop N 10 9 = N /\
  (fold_start N f <= fold_stop N 10 f)%nat /\
  (f < 9 -> fold_stop N 10 f = fold_start N (S f))%nat.
Proof.
  intros Hf. unfold fold_start, fold_stop.
  pose proof (Nat.Div0.mul_div_le N 10) as H.
  split; [reflexivity|]. split; [reflexivity|]. split.
  - destruct (Nat.eqb_spec (S f) 10); nia.
  - intros H9. destruct (Nat.eqb_spec (S f) 10); [lia | reflexivity].
Qed.

Lemma repeat_app_inj (q q' z z' : Z) (n : nat) :
  repeat q (S n) ++ [z] = repeat q' (S n) ++ [z'] -> q = q'.
Proof. cbn [repeat app]. intros H. injection H as H _. exact H. Qed.

(** C10, as stated, fails for a single fold: with [K = 1] the code returns
    the one fold of [N] indices that the balancing rule asks for, although
    [K <> 10] and [floor(5/10) <> floor(5/1)]. *)
Lemma sizes_single_fold_balanced :
  sizes 5 1 = OK (balanced_sizes 5 1) /\
  (1 <> 10)%nat /\ (5 / 10 <> 5 / 1)%nat.
Proof. repeat split; intros H; discriminate H. Qed.

(** C10 (amended): for every [K >= 1] the first [K - 1] folds have
    [floor(N/10)] indices whatever [K] is and the last fold has
    [N - (K-1) * floor(N/10)]; the sizes are those of the [floor(N/K)]
    balancing rule exactly when [K = 1] or [floor(N/10) = floor(N/K)]
    (in particular when [K = 10]). *)
Theorem sizes_constant_ten (N K : nat) :
  (1 <= K)%nat ->
  sizes N K =
    OK (repeat (Z.of_nat (N / 10)) (K - 1)
        ++ [(Z.of_nat N - Z.of_nat (K - 1) * Z.of_nat (N / 10))%Z]) /\
  (sizes N K = OK (balanced_sizes N K) <->
   K = 1%nat \/ (N / 10 = N / K)%nat).
Proof.
  intros HK. destruct K as [|K]; [lia|]. rewrite sizes_S.
  unfold balanced_sizes. replace (S K - 1)%nat with K by lia.
  split; [reflexivity|].
  generalize (N / 10)%nat as q. generalize (N / S K)%nat as q'. intros q' q.
  split.
  - intros H. injection H as H. destruct K as [|K]; [left; reflexivity|].
    right. apply repeat_app_inj in H. lia.
  - intros [H|H].
    + injection H as ->. reflexivity.
    + rewrite H. reflexivity.
Qed.

Lemma sizes_constant_ten_witness :
  sizes 20 5 =
    OK (repeat (Z.of_nat (20 / 10)) (5 - 1)
        ++ [(Z.of_nat 20 - Z.of_nat (5 - 1) * Z.of_nat (20 / 10))%Z]) /\
  (sizes 20 5 = OK (balanced_sizes 20 5) <->
   5%nat = 1%nat \/ (20 / 10 = 20 / 5)%nat).
Proof. apply (sizes_constant_ten 20 5). lia. Defined.

(** * Design matrices *)

Lemma nth_monomials (k j : nat) (a : Qc) :
  (j < k + 1)%nat -> nth j (monomials k a) 0 = a ^ j.
Proof.
  intros H. unfold monomials.
  rewrite (nth_indep _ 0 (a ^ 0)) by (rewrite length_map, length_seq; exact H).
  rewrite (map_nth (fun j => a ^ j)), seq_nth by exact H. reflexivity.
Qed.

(** C5: the design matrix that the order loop holds at order [k], built from
    [np.ones_like] by appending the column [x**(k+1)] at the end of each
    iteration, is the matrix of monomial features built from scratch; its
    columns are [x^0, x^1, ..., x^k], and the matrix of the next order is
    the current one with the single column [x^(k+1)] appended.  These are
    the matrices, of the training and of the test inputs, on which the
    cells of order [k] are computed. *)
Theorem design_incremental (v vt : list Qc) (k : nat) :
  design_inc (column v) k = OK (design v k) /\
  columns (k + 1) (rws (design v k))
    = map (fun j => map (fun a => a ^ j) v) (seq 0 (k + 1)) /\
  hstack (design v k) (pow (column v) (k + 1)) = OK (design v (S k)) /\
  rws (design v (S k))
    = map (fun a => monomials k a ++ [a ^ (k + 1)]) v /\
  forall (t tt : list Qc) (mo K : nat) (L : losses),
    evaluate v t vt tt mo K = OK L -> (k <= mo)%nat ->
    forall f, (f < K)%nat ->
      exists c r,
        c_sizes (length v) K = OK c /\
        cell_losses (column t) (column tt) c (design v k) (design vt k) f
        = OK r /\
        entry L f k = Some r.
Proof.
  split; [|split; [|split; [|split]]].
  - induction k as [|k IH]; cbn [design_inc].
    + rewrite ones_like_column. reflexivity.
    + rewrite IH. cbn [bind]. apply extend_design.
  - unfold columns, design. cbn [rws]. apply map_ext_in. intros j Hj.
    apply in_seq in Hj. rewrite map_map. apply map_ext. intros a.
    apply nth_monomials. lia.
  - apply extend_design.
  - unfold design. cbn [rws]. apply map_ext. intros a. apply monomials_S.
  - intros t tt mo K L H Hk f Hf.
    pose proof (evaluate_spec v t vt tt mo K) as E. rewrite H in E.
    destruct E as [_ E]. destruct (E k f Hk Hf) as (r & C & Er).
    unfold cell in C. apply bind_OK in C. destruct C as (c & Ec & C).
    exists c, r. repeat split; assumption.
Qed.

Lemma design_incremental_witness :
  design_inc (column (qs [0; 1; 2; 3; 4; 5; 6; 7; 8; 9]%Z)) 2
  = OK (design (qs [0; 1; 2; 3; 4; 5; 6; 7; 8; 9]%Z) 2) /\
  exists L c r,
    evaluate (qs [0; 1; 2; 3; 4; 5; 6; 7; 8; 9]%Z)
             (qs [2; 1; 6; 7; 18; 27; 35; 50; 66; 80]%Z)
             (qs [0; 2; 4]%Z) (qs [1; 4; 17]%Z) 2 10 = OK L /\
    c_sizes 10 10 = OK c /\
    cell_losses (column (qs [2; 1; 6; 7; 18; 27; 35; 50; 66; 80]%Z))
                (column (qs [1; 4; 17]%Z)) c
                (design (qs [0; 1; 2; 3; 4; 5; 6; 7; 8; 9]%Z) 2)
                (design (qs [0; 2; 4]%Z) 2) 3 = OK r /\
    entry L 3 2 = Some r.
Proof.
  destruct (design_incremental (qs [0; 1; 2; 3; 4; 5; 6; 7; 8; 9]%Z)
              (qs [0; 2; 4]%Z) 2) as (H1 & _ & _ & _ & H5).
  split; [exact H1|].
  destruct (evaluate (qs [0; 1; 2; 3; 4; 5; 6; 7; 8; 9]%Z)
                     (qs [2; 1; 6; 7; 18; 27; 35; 50; 66; 80]%Z)
                     (qs [0; 2; 4]%Z) (qs [1; 4; 17]%Z) 2 10) as [L|e] eqn:E.
  - destruct (H5 _ _ _ _ L E ltac:(lia) 3%nat ltac:(lia)) as (c & r & Hc & Hr & He).
    exists L, c, r. repeat split; assumption.
  - exfalso. vm_compute in E. discriminate E.
Defined.

(** * Failures *)

(** C3, as stated, fails: a call with [K = 1] does crash. *)
Lemma evaluate_single_fold_crashes :
  evaluate (qs [0; 1; 2; 3]%Z) (qs [1; 3; 5; 7]%Z)
           (qs [0; 2]%Z) (qs [1; 5]%Z) 2 1
  = Raise LinAlgError.
Proof. vm_compute. reflexivity. Qed.

(** C3 (amended): with [K = 1] the single fold runs from index 0 to index
    [N]: the held-out fold is the whole dataset and the training subset is
    empty, so the normal-equations matrix of the first cell is the zero
    matrix and the call fails with a singular-matrix error; no loss is
    returned. *)
Theorem evaluate_single_fold (x t xt tt : list Qc) (mo : nat) :
  length t = length x ->
  fold_start (length x) 0 = 0%nat /\
  fold_stop (length x) 1 0 = length x /\
  held_out 0 (length x) x = x /\
  training 0 (length x) x = [] /\
  evaluate x t xt tt mo 1 = Raise LinAlgError.
Proof.
  intros Lt. split; [reflexivity|]. split; [reflexivity|]. split.
  { unfold held_out. rewrite Nat.sub_0_r. apply firstn_all. }
  split; [apply training_all; lia|].
  apply evaluate_first_cell; [lia|]. apply cell_fit_Raise; [lia|].
  change (fold_start (length x) 0) with 0%nat.
  change (fold_stop (length x) 1 0) with (length x).
  assert (Ex : training 0 (length x) (map (monomials 0) x) = []).
  { apply training_all. rewrite length_map. lia. }
  assert (Et : training 0 (length x) t = []) by (apply training_all; lia).
  unfold design. apply fit_singular.
  - rewrite Ex, Et. reflexivity.
  - rewrite Ex. apply (normal_matrix_empty_singular 0).
Qed.

Lemma evaluate_single_fold_witness :
  length (qs [1; 3; 5; 7]%Z) = length (qs [0; 1; 2; 3]%Z) /\
  evaluate (qs [0; 1; 2; 3]%Z) (qs [1; 3; 5; 7]%Z)
           (qs [0; 2]%Z) (qs [1; 5]%Z) 2 1
  = Raise LinAlgError.
Proof.
  split; [reflexivity|].
  apply (evaluate_single_fold (qs [0; 1; 2; 3]%Z) (qs [1; 3; 5; 7]%Z)
           (qs [0; 2]%Z) (qs [1; 5]%Z) 2 eq_refl).
Defined.

(** On arrays of equal lengths a cell can fail only with a singular-matrix
    error, and does so exactly when its normal-equations matrix is
    singular. *)
Lemma cell_Raise (x t xt tt : list Qc) (K k f : nat) (e : exn) :
  length t = length x -> length tt = length xt -> (f < K)%nat ->
  cell x t xt tt K k f = Raise e ->
  e = LinAlgError /\ singular (cell_normal_matrix x K k f).
Proof.
  intros Lt Ltt Hf. rewrite cell_valid by assumption.
  intros H. apply bind_Raise in H. destruct H as [H|(W & _ & H)];
    [|discriminate H].
  unfold design in H. apply fit_Raise in H; [exact H|].
  apply delete_from_length. rewrite length_map. exact Lt.
Qed.

Lemma cell_OK (x t xt tt : list Qc) (K k f : nat) (v : fval * fval * fval) :
  length t = length x -> length tt = length xt -> (f < K)%nat ->
  cell x t xt tt K k f = OK v ->
  exists w, length w = (k + 1)%nat /\
            predict (rws (cell_normal_matrix x K k f)) w
            = normal_rhs (k + 1)
                (training (fold_start (length x) f) (fold_stop (length x) K f)
                          (map (monomials k) x))
                (training (fold_start (length x) f) (fold_stop (length x) K f) t) /\
            ~ singular (cell_normal_matrix x K k f) /\
            v = cell_of_fit x t xt tt K k f w.
Proof.
  intros Lt Ltt Hf. rewrite cell_valid by assumption.
  intros H. apply bind_OK in H. destruct H as (W & F & H).
  unfold design in F. apply fit_OK in F.
  2:{ apply delete_from_length. rewrite length_map. exact Lt. }
  destruct F as (w & -> & Lw & Ne & Ns). exists w.
  split; [exact Lw|]. split; [exact Ne|]. split; [exact Ns|].
  injection H as <-. f_equal. unfold column. cbn [rws]. rewrite map_map.
  cbn [hd]. apply map_id.
Qed.

Lemma cell_singular (x t xt tt : list Qc) (K k f : nat) :
  length t = length x -> length tt = length xt -> (f < K)%nat ->
  singular (cell_normal_matrix x K k f) ->
  cell x t xt tt K k f = Raise LinAlgError.
Proof.
  intros Lt Ltt Hf Sg.
  destruct (cell x t xt tt K k f) as [v|e] eqn:C.
  - apply cell_OK in C; try assumption.
    destruct C as (w & _ & _ & Ns & _). contradiction.
  - apply cell_Raise in C; try assumption. destruct C as [-> _]. reflexivity.
Qed.

(** C4, as stated, fails: on ten training points with the same input value
    the order-1 cells are singular and the whole call is aborted, although
    every order-0 cell can be computed (the call with [max_order = 0]
    returns its table). *)
Lemma evaluate_singular_cell_aborts :
  singular (cell_normal_matrix (qs [1; 1; 1; 1; 1; 1; 1; 1; 1; 1]%Z) 10 1 0) /\
  evaluate (qs [1; 1; 1; 1; 1; 1; 1; 1; 1; 1]%Z)
           (qs [0; 1; 2; 3; 4; 5; 6; 7; 8; 9]%Z) (qs [1; 2]%Z) (qs [3; 4]%Z)
           1 10 = Raise LinAlgError /\
  exists L, evaluate (qs [1; 1; 1; 1; 1; 1; 1; 1; 1; 1]%Z)
                     (qs [0; 1; 2; 3; 4; 5; 6; 7; 8; 9]%Z)
                     (qs [1; 2]%Z) (qs [3; 4]%Z) 0 10 = OK L.
Proof.
  split; [|split].
  - exists (qs [1; -1]%Z). split; [reflexivity|].
    split; [intros E; discriminate E|].
    vm_compute. repeat constructor.
  - vm_compute. reflexivity.
  - eexists. vm_compute. reflexivity.
Qed.

(** C7, as stated, fails: a fold count larger than the number of training
    points is not rejected; here [K = 11] on ten points returns a table. *)
Lemma evaluate_accepts_large_fold_count :
  (length (qs [0; 1; 2; 3; 4; 5; 6; 7; 8; 9]%Z) < 11)%nat /\
  exists L, evaluate (qs [0; 1; 2; 3; 4; 5; 6; 7; 8; 9]%Z)
                     (qs [0; 1; 4; 9; 16; 25; 36; 49; 64; 81]%Z)
                     (qs [0; 2; 4]%Z) (qs [1; 4; 16]%Z) 0 11 = OK L.
Proof.
  split; [cbn; lia|]. eexists. vm_compute. reflexivity.
Qed.

(** C7 (amended): the code has no fold-count check.  With [K = 0] the call
    fails at once, before any cell is computed, with the index error of the
    last-fold adjustment on an empty size array; for any [K >= 1], larger
    than [N] or not, a failure of the call is the failure of one of its
    cells. *)
Theorem evaluate_fold_count (x t xt tt : list Qc) (mo : nat) :
  evaluate x t xt tt mo 0 = Raise IndexError /\
  forall K e, (1 <= K)%nat -> evaluate x t xt tt mo K = Raise e ->
    exists k f, (k <= mo)%nat /\ (f < K)%nat /\
                cell x t xt tt K k f = Raise e.
Proof.
  split; [reflexivity|]. intros K e HK H.
  pose proof (evaluate_spec x t xt tt mo K) as E. rewrite H in E.
  destruct E as [[-> _]|E]; [lia | exact E].
Qed.

Lemma evaluate_fold_count_witness :
  evaluate (qs [2; 2; 2; 2; 2; 2; 2; 2; 2; 2; 2; 2]%Z)
           (qs [0; 1; 2; 3; 4; 5; 6; 7; 8; 9; 10; 11]%Z)
           (qs [1; 2; 3]%Z) (qs [3; 4; 5]%Z) 2 0 = Raise IndexError /\
  exists k f, (k <= 2)%nat /\ (f < 3)%nat /\
    cell (qs [2; 2; 2; 2; 2; 2; 2; 2; 2; 2; 2; 2]%Z)
         (qs [0; 1; 2; 3; 4; 5; 6; 7; 8; 9; 10; 11]%Z)
         (qs [1; 2; 3]%Z) (qs [3; 4; 5]%Z) 3 k f = Raise LinAlgError.
Proof.
  destruct (evaluate_fold_count
              (qs [2; 2; 2; 2; 2; 2; 2; 2; 2; 2; 2; 2]%Z)
              (qs [0; 1; 2; 3; 4; 5; 6; 7; 8; 9; 10; 11]%Z)
              (qs [1; 2; 3]%Z) (qs [3; 4; 5]%Z) 2) as [H0 H1].
  split; [exact H0|]. apply (H1 3%nat LinAlgError); [lia|].
  vm_compute. reflexivity.
Defined.

(** C8, as stated, fails: test arrays of lengths 3 and 1 are accepted, the
    single test response being broadcast against the three predictions. *)
Lemma evaluate_accepts_test_mismatch :
  length (qs [0; 2; 4]%Z) <> length (qs [1]%Z) /\
  exists L, evaluate (qs [0; 1; 2; 3; 4; 5; 6; 7; 8; 9]%Z)
                     (qs [0; 1; 4; 9; 16; 25; 36; 49; 64; 81]%Z)
                     (qs [0; 2; 4]%Z) (qs [1]%Z) 1 10 = OK L.
Proof.
  split; [cbn; lia|]. eexists. vm_compute. reflexivity.
Qed.

Lemma fit_first_fold_mismatch (x t : list Qc) (K k : nat) :
  length t <> length x -> (1 <= K)%nat ->
  fit (column t) (design x k) (fold_start (length x) 0)
      (fold_stop (length x) K 0)
  = Raise (if ((K =? 1) && (length t <? length x))%nat
           then LinAlgError else ValueError).
Proof.
  intros Lt HK. change (fold_start (length x) 0) with 0%nat.
  unfold fold_stop, design.
  assert (Lr : forall b, length (training 0 b (map (monomials k) x))
                         = (length x - b)%nat).
  { intros b. rewrite training_spec. cbn [firstn app Nat.max].
    rewrite length_skipn, length_map. reflexivity. }
  assert (Ly : forall b, length (training 0 b t) = (length t - b)%nat).
  { intros b. rewrite training_spec. cbn [firstn app Nat.max].
    apply length_skipn. }
  destruct (Nat.eqb_spec 1 K) as [<-|HK1]; cbn [Nat.eqb andb].
  - destruct (Nat.ltb_spec (length t) (length x)) as [Hlt|Hge].
    + apply fit_singular; [rewrite Lr, Ly; lia|].
      rewrite training_all by (rewrite length_map; lia).
      replace (k + 1)%nat with (S k) by lia.
      apply normal_matrix_empty_singular.
    + apply fit_mismatch. rewrite Lr, Ly. lia.
  - assert (E1 : (K =? 1)%nat = false) by (apply Nat.eqb_neq; lia).
    rewrite E1. cbn [andb].
    apply fit_mismatch. rewrite Lr, Ly, Nat.mul_1_l.
    destruct (Nat.eq_dec (length x) 0) as [E0|N0].
    + assert (length x / 10 = 0)%nat by (rewrite E0; reflexivity). lia.
    + pose proof (Nat.div_lt (length x) 10 ltac:(lia) ltac:(lia)). lia.
Qed.

Lemma evaluate_train_mismatch (x t xt tt : list Qc) (mo K : nat) :
  length t <> length x ->
  evaluate x t xt tt mo K =
  Raise (if (K =? 0)%nat then IndexError
         else if ((K =? 1) && (length t <? length x))%nat then LinAlgError
         else ValueError).
Proof.
  intros Lt. destruct K as [|K]; [reflexivity|]. cbn [Nat.eqb].
  apply evaluate_first_cell; [lia|]. apply cell_fit_Raise; [lia|].
  apply (fit_first_fold_mismatch x t (S K) 0 Lt). lia.
Qed.

Lemma dot_nrow (A B P : ndarray) : dot A B = OK P -> nrow P = nrow A.
Proof.
  unfold dot. destruct (ncol A =? nrow B)%nat; [|discriminate].
  intros H; injection H as <-. unfold nrow. cbn [rws]. apply length_map.
Qed.

Lemma bdim_None (m n : nat) :
  m <> n -> m <> 1%nat -> n <> 1%nat -> bdim m n = None.
Proof.
  intros H1 H2 H3. unfold bdim.
  destruct (Nat.eqb_spec m n); [contradiction|].
  destruct (Nat.eqb_spec m 1); [contradiction|].
  destruct (Nat.eqb_spec n 1); [contradiction | reflexivity].
Qed.

Lemma mse_mismatch (P : ndarray) (y : list Qc) :
  nrow P <> length y -> nrow P <> 1%nat -> length y <> 1%nat ->
  mse P (column y) = Raise ValueError.
Proof.
  intros H1 H2 H3. unfold mse, sub.
  replace (nrow (column y)) with (length y)
    by (unfold nrow, column; simpl; rewrite length_map; reflexivity).
  rewrite bdim_None by assumption. reflexivity.
Qed.

Lemma first_cell_test_mismatch (x t xt tt : list Qc) (K : nat) :
  (1 <= K)%nat ->
  length tt <> length xt -> length tt <> 1%nat -> length xt <> 1%nat ->
  exists e, cell x t xt tt K 0 0 = Raise e.
Proof.
  intros HK H1 H2 H3. unfold cell. destruct K as [|K]; [lia|].
  destruct (c_sizes_S (length x) K) as [c Ec]. rewrite Ec. cbn [bind].
  unfold cell_losses.
  do 6 (step_bind; [|eexists; reflexivity]).
  match goal with
  | H : dot (design xt 0) _ = OK ?P |- _ =>
      apply dot_nrow in H;
      rewrite (mse_mismatch P tt)
  end.
  - eexists. reflexivity.
  - match goal with H : nrow _ = nrow (design xt 0) |- _ => rewrite H end.
    unfold nrow, design. cbn [rws]. rewrite length_map. congruence.
  - match goal with H : nrow _ = nrow (design xt 0) |- _ => rewrite H end.
    unfold nrow, design. cbn [rws]. rewrite length_map. exact H3.
  - exact H2.
Qed.

(** C8 (amended): there is no shape check, but paired arrays of unequal
    length make the whole call fail, unless they are the test arrays and one
    of them has length 1 (it is then broadcast against the other).  A
    mismatch of the training arrays fails in the first cell (order 0,
    fold 0), before any loss is recorded: with the [ValueError] of [np.dot]
    on unaligned shapes, except that a single fold ([K = 1]) with fewer
    responses than inputs gives the singular-matrix error, and [K = 0] the
    index error of the fold sizes. *)
Theorem evaluate_shape_mismatch (x t xt tt : list Qc) (mo K : nat) :
  length t <> length x \/
  (length tt <> length xt /\ length tt <> 1%nat /\ length xt <> 1%nat) ->
  exists e, evaluate x t xt tt mo K = Raise e /\
    (length t <> length x ->
     e = if (K =? 0)%nat then IndexError
         else if ((K =? 1) && (length t <? length x))%nat then LinAlgError
         else ValueError).
Proof.
  intros H. destruct (Nat.eq_dec (length t) (length x)) as [E|Lt].
  - destruct H as [H|(H1 & H2 & H3)]; [contradiction|].
    destruct K as [|K].
    + exists IndexError. split; [reflexivity | contradiction].
    + destruct (first_cell_test_mismatch x t xt tt (S K) ltac:(lia) H1 H2 H3)
        as [e C].
      exists e. split; [|contradiction].
      apply evaluate_first_cell; [lia | exact C].
  - eexists. split; [apply evaluate_train_mismatch; exact Lt|].
    intros _. reflexivity.
Qed.

Lemma evaluate_shape_mismatch_witness :
  exists e,
    evaluate (qs [0; 1; 2; 3; 4; 5; 6; 7; 8; 9]%Z) (qs [0; 1; 4]%Z)
             (qs [0; 2; 4]%Z) (qs [1; 4; 16]%Z) 3 5 = Raise e.
Proof.
  destruct (evaluate_shape_mismatch
              (qs [0; 1; 2; 3; 4; 5; 6; 7; 8; 9]%Z) (qs [0; 1; 4]%Z)
              (qs [0; 2; 4]%Z) (qs [1; 4; 16]%Z) 3 5) as (e & E & _).
  - left. cbn. lia.
  - exists e. exact E.
Defined.

(** * The losses *)

Lemma Qc_sq_nonneg (a : Qc) : 0 <= a * a.
Proof.
  destruct (Qclt_le_dec a 0) as [H|H].
  - replace (a * a) with ((- a) * (- a)) by ring.
    assert (H' : 0 <= - a).
    { apply Qclt_le_weak in H. apply Qcopp_le_compat in H.
      replace (- 0) with 0 in H by ring. exact H. }
    replace 0 with (0 * - a) by ring. apply Qcmult_le_compat_r; assumption.
  - replace 0 with (0 * a) by ring. apply Qcmult_le_compat_r; assumption.
Qed.

Lemma of_nat_pos (n : nat) : (0 < n)%nat -> 0 < of_nat n.
Proof.
  intros H. unfold of_nat, Qclt. cbn [this Q2Qc].
  rewrite (Qred_correct (inject_Z (Z.of_nat n))).
  change (inject_Z 0 < inject_Z (Z.of_nat n))%Q.
  rewrite <- Zlt_Qlt. lia.
Qed.

Lemma Qc_pos_neq (b : Qc) : 0 < b -> b <> 0.
Proof.
  intros Hb E. rewrite E in Hb. apply (Qclt_not_eq _ _ Hb). reflexivity.
Qed.

Lemma Qc_div_le (a c b : Qc) : a <= c -> 0 < b -> a / b <= c / b.
Proof.
  intros Ha Hb. apply (Qcmult_lt_0_le_reg_r _ _ b Hb).
  pose proof (Qc_pos_neq b Hb) as Nb.
  replace (a / b * b) with a by (field; exact Nb).
  replace (c / b * b) with c by (field; exact Nb). exact Ha.
Qed.

Lemma Qc_div_nonneg (a b : Qc) : 0 <= a -> 0 < b -> 0 <= a / b.
Proof.
  intros Ha Hb. replace 0 with (0 / b) by (field; apply Qc_pos_neq, Hb).
  apply Qc_div_le; assumption.
Qed.

Lemma entry_Some (L : losses) (f k : nat) (cv ind tr : fval) :
  entry L f k = Some (cv, ind, tr) ->
  get2 (cv_loss L) f k = Some cv /\ get2 (ind_loss L) f k = Some ind /\
  get2 (train_loss L) f k = Some tr.
Proof.
  unfold entry.
  destruct (get2 (cv_loss L) f k), (get2 (ind_loss L) f k),
    (get2 (train_loss L) f k); intros H; try discriminate H.
  injection H as -> -> ->. repeat split.
Qed.

(** C9, as stated, fails: for inputs that meet every precondition (paired
    arrays of equal positive lengths, [1 <= K <= N]) the call may return no
    table at all; here the inputs take two values only and the order-2
    cells are singular. *)
Lemma evaluate_valid_input_no_table :
  let x := qs [0; 1; 0; 1; 0; 1; 0; 1; 0; 1]%Z in
  let t := qs [3; 5; 2; 6; 3; 4; 2; 5; 3; 6]%Z in
  let xt := qs [0; 1]%Z in
  let tt := qs [3; 5]%Z in
  length t = length x /\ length tt = length xt /\
  (0 < length x)%nat /\ (0 < length xt)%nat /\ (1 <= 5 <= length x)%nat /\
  evaluate x t xt tt 2 5 = Raise LinAlgError.
Proof.
  cbv zeta. split; [reflexivity|]. split; [reflexivity|].
  split; [cbn; lia|]. split; [cbn; lia|]. split; [cbn; lia|].
  vm_compute. reflexivity.
Qed.

(** An empty held-out fold, which the constant 10 produces for [K = 11] on
    twenty points, records [nan] as its cross-validation loss. *)
Lemma evaluate_empty_fold_nan :
  exists L,
    evaluate (qs [0; 1; 2; 3; 4; 5; 6; 7; 8; 9;
                  10; 11; 12; 13; 14; 15; 16; 17; 18; 19]%Z)
             (qs [1; 3; 2; 5; 4; 7; 6; 9; 8; 11;
                  10; 13; 12; 15; 14; 17; 16; 19; 18; 21]%Z)
             (qs [0; 2]%Z) (qs [1; 4]%Z) 0 11 = OK L /\
    get2 (cv_loss L) 10 0 = Some NaN.
Proof.
  eexists. split; vm_compute; reflexivity.
Qed.

(** * Inner products *)

Lemma dotp_comm (u v : list Qc) : dotp u v = dotp v u.
Proof.
  revert v. induction u as [|a u IH]; intros [|b v]; cbn [dotp];
    try reflexivity.
  rewrite IH. ring.
Qed.

Lemma dotp_map_zero_r {A : Type} (u : list Qc) (l : list A) :
  dotp u (map (fun _ => 0) l) = 0.
Proof. rewrite dotp_comm. apply dotp_zeros_l. Qed.

Lemma dotp_map_add {A : Type} (u : list Qc) (f g : A -> Qc) (l : list A) :
  dotp u (map (fun j => f j + g j) l)
  = dotp u (map f l) + dotp u (map g l).
Proof.
  revert u. induction l as [|j l IH]; intros [|a u]; cbn [map dotp];
    try ring.
  rewrite IH. ring.
Qed.

Lemma dotp_map_scale {A : Type} (u : list Qc) (f : A -> Qc) (c : Qc) (l : list A) :
  dotp u (map (fun j => f j * c) l) = c * dotp u (map f l).
Proof.
  revert u. induction l as [|j l IH]; intros [|a u]; cbn [map dotp];
    try ring.
  rewrite IH. ring.
Qed.

(** [r . (A u) = u . (A.T r)] *)
Lemma dotp_exchange (d : nat) (u : list Qc) :
  forall (A : list (list Qc)) (r : list Qc),
    Forall (fun a => length a = d) A -> length r = length A ->
    dotp r (predict A u) = dotp u (predict (columns d A) r).
Proof.
  induction A as [|a A IH]; intros r WA Lr.
  - destruct r; [|discriminate]. unfold predict, columns. cbn [map dotp].
    rewrite map_map. cbn [map dotp]. symmetry. apply dotp_map_zero_r.
  - destruct r as [|r0 r]; [discriminate|].
    inversion WA as [|? ? La WA']; subst.
    cbn [predict map dotp]. fold (predict A u).
    rewrite (IH r WA') by (cbn in Lr; lia).
    unfold predict, columns. rewrite !map_map. cbn [map dotp].
    rewrite dotp_map_add, dotp_map_scale.
    rewrite (map_nth_seq a 0), (dotp_comm u a). ring.
Qed.

Lemma columns_rows_length (d : nat) (A : list (list Qc)) (c : list Qc) :
  In c (columns d A) -> length c = length A.
Proof.
  unfold columns. intros H. apply in_map_iff in H.
  destruct H as (j & <- & _). apply length_map.
Qed.

Lemma training_map {A B : Type} (g : A -> B) (a b : nat) (l : list A) :
  training a b (map g l) = map g (training a b l).
Proof. apply delete_from_map. Qed.

Lemma monomials_length (k : nat) (a : Qc) : length (monomials k a) = (k + 1)%nat.
Proof. unfold monomials. rewrite length_map, length_seq. reflexivity. Qed.

(** * Further properties of the sweep *)

Lemma cumsum_from_length (acc : Z) (l : list Z) :
  length (cumsum_from acc l) = length l.
Proof.
  revert acc. induction l as [|a l IH]; intros acc; cbn [cumsum_from length];
    [reflexivity | rewrite IH; reflexivity].
Qed.

Lemma index_nth {A : Type} (l : list A) (i : nat) (a d : A) :
  index l i = OK a -> nth i l d = a.
Proof.
  unfold index. destruct (nth_error l i) as [b|] eqn:E; [|discriminate].
  intros H; injection H as <-. apply nth_error_nth. exact E.
Qed.

Lemma nth_sizes (q z : Z) (n f : nat) :
  nth f (repeat q n ++ [z]) 0%Z
  = if (f <? n)%nat then q else if (f =? n)%nat then z else 0%Z.
Proof.
  destruct (Nat.ltb_spec f n) as [H|H].
  - rewrite app_nth1 by (rewrite repeat_length; exact H).
    apply nth_repeat_lt. exact H.
  - rewrite app_nth2 by (rewrite repeat_length; exact H).
    rewrite repeat_length.
    destruct (Nat.eqb_spec f n) as [->|Hne].
    + rewrite Nat.sub_diag. reflexivity.
    + destruct (f - n)%nat as [|[|m]] eqn:E; [lia | reflexivity | reflexivity].
Qed.

(** X1: for every fold count [K >= 1] the code returns [K] fold sizes that
    sum to [N] and [K + 1] bounds that start at 0 and end at [N], two
    consecutive bounds being one fold size apart. *)
Theorem c_sizes_invariant (N K : nat) :
  (1 <= K)%nat ->
  exists s c,
    sizes N K = OK s /\ c_sizes N K = OK c /\
    length s = K /\ zsum s = Z.of_nat N /\
    length c = (K + 1)%nat /\ nth 0 c 0%Z = 0%Z /\ nth K c 0%Z = Z.of_nat N /\
    forall f, (f < K)%nat ->
      (nth (S f) c 0 - nth f c 0 = nth f s 0)%Z.
Proof.
  intros HK. destruct K as [|K]; [lia|].
  destruct (c_sizes_S N K) as [c Ec].
  pose proof (sizes_S N K) as Es.
  destruct (sizes_sum _ _ _ Es) as [Ls Zs].
  eexists _, c. split; [exact Es|]. split; [exact Ec|].
  split; [exact Ls|]. split; [exact Zs|].
  assert (Hc : c = 0%Z :: cumsum (repeat (Z.of_nat (N / 10)) K
                 ++ [(Z.of_nat N - Z.of_nat K * Z.of_nat (N / 10))%Z])).
  { unfold c_sizes in Ec. rewrite Es in Ec. cbn [bind] in Ec.
    injection Ec as <-. reflexivity. }
  split.
  { rewrite Hc. cbn [length]. unfold cumsum.
    rewrite cumsum_from_length, length_app, repeat_length. cbn [length]. lia. }
  split; [rewrite Hc; reflexivity|].
  assert (Hn : forall f, (f < S K)%nat ->
             nth f c 0%Z = Z.of_nat (fold_start N f) /\
             nth (S f) c 0%Z = Z.of_nat (fold_stop N (S K) f)).
  { intros f Hf. destruct (c_sizes_index _ _ _ _ Ec Hf) as [Ia Ib].
    replace (f + 1)%nat with (S f) in Ib by lia.
    split; apply index_nth; assumption. }
  split.
  { destruct (Hn K ltac:(lia)) as [_ H]. rewrite H. unfold fold_stop.
    rewrite Nat.eqb_refl. reflexivity. }
  intros f Hf. destruct (Hn f Hf) as [Ha Hb]. rewrite Ha, Hb, nth_sizes.
  unfold fold_start, fold_stop. change (S f =? S K)%nat with (f =? K)%nat.
  destruct (Nat.ltb_spec f K); destruct (Nat.eqb_spec f K); lia.
Qed.

Lemma c_sizes_invariant_witness :
  exists s c, sizes 23 7 = OK s /\ c_sizes 23 7 = OK c /\
              zsum s = 23%Z /\ nth 7 c 0%Z = 23%Z.
Proof.
  destruct (c_sizes_invariant 23 7 ltac:(lia))
    as (s & c & Hs & Hc & _ & Hz & _ & _ & Hn & _).
  exists s, c. repeat split; assumption.
Defined.

Lemma firstn_add {A : Type} (n m : nat) (l : list A) :
  firstn (n + m) l = firstn n l ++ firstn m (skipn n l).
Proof.
  revert l. induction n as [|n IH]; intros l; [reflexivity|].
  destruct l as [|a l]; cbn [Nat.add firstn skipn app].
  - rewrite firstn_nil. reflexivity.
  - rewrite IH. reflexivity.
Qed.

Lemma concat_blocks {A : Type} (q : nat) (l : list A) (n : nat) :
  concat (map (fun f => firstn (S f * q - f * q) (skipn (f * q) l)) (seq 0 n))
  = firstn (n * q) l.
Proof.
  induction n as [|n IH]; [reflexivity|].
  rewrite seq_S, map_app, concat_app, IH. cbn [map concat Nat.add].
  rewrite app_nil_r. replace (S n * q - n * q)%nat with q by lia.
  replace (S n * q)%nat with (n * q + q)%nat by lia.
  symmetry. apply firstn_add.
Qed.

Lemma slices_concat (X : ndarray) (N K : nat) :
  nrow X = N -> (1 <= K)%nat -> ((K - 1) * (N / 10) <= N)%nat ->
  concat (map (fun f => rws (slice X (fold_start N f) (fold_stop N K f)))
              (seq 0 K))
  = rws X.
Proof.
  intros HN HK Hle. destruct K as [|K]; [lia|].
  replace (S K - 1)%nat with K in Hle by lia.
  rewrite seq_S, map_app, concat_app. cbn [map concat Nat.add].
  rewrite app_nil_r. unfold slice, fold_start, fold_stop. cbn [rws].
  rewrite Nat.eqb_refl.
  rewrite (map_ext_in _ (fun f => firstn (S f * (N / 10) - f * (N / 10))
                                         (skipn (f * (N / 10)) (rws X)))).
  2:{ intros f Hf. apply in_seq in Hf.
      destruct (Nat.eqb_spec (S f) (S K)); [lia | reflexivity]. }
  rewrite concat_blocks.
  rewrite (firstn_all2 (n := (N - K * (N / 10))%nat))
    by (rewrite length_skipn; unfold nrow in HN; lia).
  apply firstn_skipn.
Qed.

(** The entries [f] and [f + 1] of [c_sizes], as natural numbers. *)
Lemma c_sizes_bounds (N K f : nat) (c : list Z) :
  c_sizes N K = OK c -> (f < K)%nat ->
  Z.to_nat (nth f c 0%Z) = fold_start N f /\
  Z.to_nat (nth (f + 1) c 0%Z) = fold_stop N K f.
Proof.
  intros Ec Hf. destruct (c_sizes_index _ _ _ _ Ec Hf) as [Ia Ib].
  rewrite (index_nth _ _ _ 0%Z Ia), (index_nth _ _ _ 0%Z Ib), !Nat2Z.id.
  split; reflexivity.
Qed.

Lemma c_sizes_length (N K : nat) (c : list Z) :
  c_sizes N K = OK c -> length c = (K + 1)%nat.
Proof.
  destruct K as [|K]; [discriminate|].
  unfold c_sizes. rewrite sizes_S. cbn [bind]. intros H; injection H as <-.
  cbn [length]. unfold cumsum.
  rewrite cumsum_from_length, length_app, repeat_length. cbn [length]. lia.
Qed.

(** X2: as long as the constant-10 fold size leaves a non-negative last fold
    ([(K-1) * floor(N/10) <= N], which holds for every [K <= 11]), the [K]
    held-out slices [X[c_sizes[f]:c_sizes[f+1], :]], cut at the [K + 1]
    entries of the [c_sizes] that the code computes and taken in order, are
    the rows of [X]: every row belongs to exactly one fold. *)
Theorem folds_partition (X : ndarray) (N K : nat) (c : list Z) :
  nrow X = N -> ((K - 1) * (N / 10) <= N)%nat -> c_sizes N K = OK c ->
  length c = (K + 1)%nat /\
  concat (map (fun f => rws (slice X (Z.to_nat (nth f c 0%Z))
                                     (Z.to_nat (nth (f + 1) c 0%Z))))
              (seq 0 K))
  = rws X.
Proof.
  intros HN Hle Ec. split; [exact (c_sizes_length N K c Ec)|].
  assert (HK : (1 <= K)%nat) by (destruct K; [discriminate Ec | lia]).
  rewrite <- (slices_concat X N K HN HK Hle).
  f_equal. apply map_ext_in. intros f Hf. apply in_seq in Hf.
  destruct (c_sizes_bounds N K f c Ec ltac:(lia)) as [-> ->]. reflexivity.
Qed.

Lemma folds_partition_witness :
  exists c,
    c_sizes 23 7 = OK c /\
    concat (map (fun f => rws (slice (column (qs [0; 1; 2; 3; 4; 5; 6; 7; 8; 9;
                                                  10; 11; 12; 13; 14; 15; 16;
                                                  17; 18; 19; 20; 21; 22]%Z))
                                     (Z.to_nat (nth f c 0%Z))
                                     (Z.to_nat (nth (f + 1) c 0%Z))))
                (seq 0 7))
    = rws (column (qs [0; 1; 2; 3; 4; 5; 6; 7; 8; 9; 10; 11; 12; 13; 14; 15;
                       16; 17; 18; 19; 20; 21; 22]%Z)).
Proof.
  eexists. split; [reflexivity|].
  apply (folds_partition _ 23 7); [reflexivity | cbn; lia | reflexivity].
Defined.

(** X3: for any bounds [a], [b] the held-out slice [X[a:b, :]] and the
    training rows [np.delete(X, np.arange(a, b, 1), 0)] together are the
    rows of [X], each exactly once, and both keep the columns of [X]. *)
Theorem fold_splits_rows (X : ndarray) (a b : nat) :
  Permutation (rws (slice X a b) ++ rws (np_delete X (arange a b))) (rws X) /\
  ncol (slice X a b) = ncol X /\ ncol (np_delete X (arange a b)) = ncol X /\
  (nrow (slice X a b) + nrow (np_delete X (arange a b)) = nrow X)%nat.
Proof.
  assert (P : Permutation (rws (slice X a b) ++ rws (np_delete X (arange a b)))
                          (rws X)).
  { unfold slice, np_delete. cbn [rws]. fold (training a b (rws X)).
    rewrite training_spec. generalize (rws X) as l. intros l.
    destruct (Nat.le_gt_cases b a) as [H|H].
    - replace (b - a)%nat with 0%nat by lia.
      replace (Nat.max a b) with a by lia. cbn [firstn app].
      rewrite firstn_skipn. apply Permutation_refl.
    - replace (Nat.max a b) with ((b - a) + a)%nat by lia.
      rewrite <- skipn_skipn.
      rewrite <- (firstn_skipn a l) at 4.
      rewrite <- (firstn_skipn (b - a) (skipn a l)) at 3.
      apply Permutation_app_swap_app. }
  split; [exact P|]. split; [reflexivity|]. split; [reflexivity|].
  apply Permutation_length in P. rewrite length_app in P. exact P.
Qed.

(** X4: the sweep is incremental in the order: when the call succeeds up to
    [max_order = mo'], it succeeds for every smaller [max_order] and records
    the same three losses for the orders they share. *)
Theorem evaluate_order_prefix (x t xt tt : list Qc) (mo mo' K : nat)
        (L' : losses) :
  (mo <= mo')%nat -> evaluate x t xt tt mo' K = OK L' ->
  exists L, evaluate x t xt tt mo K = OK L /\
    forall k f, (k <= mo)%nat -> (f < K)%nat -> entry L f k = entry L' f k.
Proof.
  intros Hm H'. pose proof (evaluate_spec x t xt tt mo' K) as E'.
  rewrite H' in E'. destruct E' as [_ E'].
  pose proof (evaluate_spec x t xt tt mo K) as E.
  destruct (evaluate x t xt tt mo K) as [L|e].
  - exists L. split; [reflexivity|]. intros k f Hk Hf.
    destruct E as [_ E]. destruct (E k f Hk Hf) as (v & C & Ev).
    destruct (E' k f ltac:(lia) Hf) as (v' & C' & Ev').
    congruence.
  - exfalso. destruct E as [[-> ->]|(k & f & Hk & Hf & C)].
    + discriminate H'.
    + destruct (E' k f ltac:(lia) Hf) as (v' & C' & _). congruence.
Qed.

Lemma evaluate_order_prefix_witness :
  exists L L',
    evaluate (qs [0; 1; 2; 3; 4; 5; 6; 7; 8; 9]%Z)
             (qs [2; 1; 6; 7; 18; 27; 35; 50; 66; 80]%Z)
             (qs [0; 2; 4]%Z) (qs [1; 4; 17]%Z) 3 10 = OK L' /\
    evaluate (qs [0; 1; 2; 3; 4; 5; 6; 7; 8; 9]%Z)
             (qs [2; 1; 6; 7; 18; 27; 35; 50; 66; 80]%Z)
             (qs [0; 2; 4]%Z) (qs [1; 4; 17]%Z) 1 10 = OK L /\
    entry L 4 1 = entry L' 4 1.
Proof.
  destruct (evaluate (qs [0; 1; 2; 3; 4; 5; 6; 7; 8; 9]%Z)
                     (qs [2; 1; 6; 7; 18; 27; 35; 50; 66; 80]%Z)
                     (qs [0; 2; 4]%Z) (qs [1; 4; 17]%Z) 3 10) as [L'|e] eqn:E.
  - destruct (evaluate_order_prefix _ _ _ _ 1 3 10 L' ltac:(lia) E)
      as (L & HL & Hent).
    exists L, L'. split; [reflexivity|]. split; [exact HL|].
    apply Hent; lia.
  - exfalso. vm_compute in E. discriminate E.
Defined.

Lemma cell_losses_test_indep (t tt tt' : ndarray) (c : list Z)
      (X Xt Xt' : ndarray) (f : nat) (v v' : fval * fval * fval) :
  cell_losses t tt c X Xt f = OK v -> cell_losses t tt' c X Xt' f = OK v' ->
  fst (fst v) = fst (fst v') /\ snd v = snd v'.
Proof.
  unfold cell_losses. cbv zeta.
  repeat (step_bind; [|intros; congruence]).
  intros H H'. injection H as <-. injection H' as <-. split; reflexivity.
Qed.

Lemma entry_components (L : losses) (f k : nat) (v : fval * fval * fval) :
  entry L f k = Some v ->
  get2 (cv_loss L) f k = Some (fst (fst v)) /\
  get2 (ind_loss L) f k = Some (snd (fst v)) /\
  get2 (train_loss L) f k = Some (snd v).
Proof.
  destruct v as [[cv ind] tr]. apply entry_Some.
Qed.

(** X5: the test set never leaks into the fit: two successful calls that
    differ only in the test arrays record the same cross-validation and
    training losses for every (fold, order) pair. *)
Theorem test_set_independent (x t xt tt xt' tt' : list Qc) (mo K : nat)
        (L L' : losses) :
  evaluate x t xt tt mo K = OK L -> evaluate x t xt' tt' mo K = OK L' ->
  forall k f, (k <= mo)%nat -> (f < K)%nat ->
    get2 (cv_loss L) f k = get2 (cv_loss L') f k /\
    get2 (train_loss L) f k = get2 (train_loss L') f k.
Proof.
  intros H H' k f Hk Hf.
  pose proof (evaluate_spec x t xt tt mo K) as E. rewrite H in E.
  pose proof (evaluate_spec x t xt' tt' mo K) as E'. rewrite H' in E'.
  destruct E as [_ E]. destruct E' as [_ E'].
  destruct (E k f Hk Hf) as (v & C & Ev).
  destruct (E' k f Hk Hf) as (v' & C' & Ev').
  unfold cell in C, C'.
  apply bind_OK in C. destruct C as (c & Ec & C).
  apply bind_OK in C'. destruct C' as (c' & Ec' & C').
  assert (c' = c) by congruence. subst c'.
  destruct (cell_losses_test_indep _ _ _ _ _ _ _ _ _ _ C C') as [H1 H2].
  apply entry_components in Ev. apply entry_components in Ev'.
  destruct Ev as (A1 & _ & A3). destruct Ev' as (B1 & _ & B3).
  split; congruence.
Qed.

Lemma test_set_independent_witness :
  exists L L',
    evaluate (qs [0; 1; 2; 3; 4; 5; 6; 7; 8; 9]%Z)
             (qs [2; 1; 6; 7; 18; 27; 35; 50; 66; 80]%Z)
             (qs [0; 2; 4]%Z) (qs [1; 4; 17]%Z) 1 10 = OK L /\
    evaluate (qs [0; 1; 2; 3; 4; 5; 6; 7; 8; 9]%Z)
             (qs [2; 1; 6; 7; 18; 27; 35; 50; 66; 80]%Z)
             (qs [1; 3; 5; 7]%Z) (qs [9; 9; 9; 9]%Z) 1 10 = OK L' /\
    get2 (cv_loss L) 2 1 = get2 (cv_loss L') 2 1.
Proof.
  destruct (evaluate (qs [0; 1; 2; 3; 4; 5; 6; 7; 8; 9]%Z)
                     (qs [2; 1; 6; 7; 18; 27; 35; 50; 66; 80]%Z)
                     (qs [0; 2; 4]%Z) (qs [1; 4; 17]%Z) 1 10) as [L|e] eqn:E;
    [|exfalso; vm_compute in E; discriminate E].
  destruct (evaluate (qs [0; 1; 2; 3; 4; 5; 6; 7; 8; 9]%Z)
                     (qs [2; 1; 6; 7; 18; 27; 35; 50; 66; 80]%Z)
                     (qs [1; 3; 5; 7]%Z) (qs [9; 9; 9; 9]%Z) 1 10)
    as [L'|e] eqn:E';
    [|exfalso; vm_compute in E'; discriminate E'].
  exists L, L'. split; [reflexivity|]. split; [reflexivity|].
  apply (test_set_independent _ _ _ _ _ _ 1 10 L L' E E' 1 2); lia.
Defined.

(** ** Cells with too few training rows *)

Lemma gauss_Some_length (n : nat) : forall (eqs : list equation) (v : list Qc),
  gauss n eqs = Some v -> (n <= length eqs)%nat.
Proof.
  induction n as [|n IH]; intros eqs v; cbn [gauss]; [lia|].
  destruct (pick_pivot eqs) as [[p others]|] eqn:Pk; [|discriminate].
  destruct (pick_pivot_Some _ _ _ Pk) as (_ & Hl & _).
  destruct (gauss n (map (eliminate p) others)) as [v'|] eqn:G; [|discriminate].
  intros _. apply IH in G. rewrite length_map in G. lia.
Qed.

(** A homogeneous system with fewer equations than unknowns has a non-zero
    solution. *)
Lemma few_rows_kernel (d : nat) (A : list (list Qc)) :
  Forall (fun a => length a = d) A -> (length A < d)%nat ->
  exists u, length u = d /\ u <> repeat 0 d /\
            Forall (fun a => dotp a u = 0) A.
Proof.
  intros WA Hl.
  set (eqs := combine A (repeat 0 (length A))).
  assert (Hr : rows_n d eqs).
  { apply (rows_n_combine (Arr d A)). exact WA. }
  destruct (gauss d eqs) as [v|] eqn:G.
  - apply gauss_Some_length in G. unfold eqs, equation in G.
    rewrite length_combine, repeat_length in G. lia.
  - destruct (gauss_None_kernel d eqs Hr G) as (u & Lu & Nz & Hu).
    exists u. split; [exact Lu|]. split; [exact Nz|].
    apply (Forall_combine_fst (fun a => dotp a u = 0) A
             (repeat 0 (length A))); [rewrite repeat_length; reflexivity|].
    exact Hu.
Qed.

Lemma gram_kernel (d : nat) (A : list (list Qc)) (u : list Qc) :
  Forall (fun a => length a = d) A ->
  Forall (fun a => dotp a u = 0) A ->
  Forall (fun g => dotp g u = 0) (gram (columns d A)).
Proof.
  intros WA Hu. unfold gram. rewrite Forall_map. apply Forall_forall.
  intros c Hc.
  rewrite dotp_comm.
  rewrite (map_ext _ (fun c' => dotp c' c)) by (intros; apply dotp_comm).
  fold (predict (columns d A) c).
  rewrite <- (dotp_exchange d u A c WA (columns_rows_length d A c Hc)).
  replace (predict A u) with (map (fun _ : list Qc => 0) A).
  - apply dotp_map_zero_r.
  - unfold predict. apply map_ext_in. intros a Ha.
    rewrite Forall_forall in Hu. symmetry. apply Hu. exact Ha.
Qed.

Lemma underdetermined_singular (x : list Qc) (K k f : nat) :
  (length (training (fold_start (length x) f) (fold_stop (length x) K f) x)
   < k + 1)%nat ->
  singular (cell_normal_matrix x K k f).
Proof.
  intros Hl. unfold cell_normal_matrix.
  set (a := fold_start (length x) f) in *.
  set (b := fold_stop (length x) K f) in *.
  rewrite training_map.
  assert (WA : Forall (fun r => length r = (k + 1)%nat)
                      (map (monomials k) (training a b x))).
  { rewrite Forall_map. apply Forall_forall. intros c _.
    apply monomials_length. }
  destruct (few_rows_kernel (k + 1) _ WA) as (u & Lu & Nz & Hu).
  { rewrite length_map. exact Hl. }
  exists u. cbn [normal_matrix ncol rws].
  split; [exact Lu|]. split; [exact Nz|].
  apply gram_kernel; assumption.
Qed.

Lemma evaluate_raises_singular (x t xt tt : list Qc) (mo K k f : nat) :
  length t = length x -> length tt = length xt ->
  (k <= mo)%nat -> (f < K)%nat ->
  singular (cell_normal_matrix x K k f) ->
  evaluate x t xt tt mo K = Raise LinAlgError.
Proof.
  intros Lt Ltt Hk Hf Sg. pose proof (evaluate_spec x t xt tt mo K) as E.
  destruct (evaluate x t xt tt mo K) as [L|e].
  - destruct E as [_ E]. destruct (E k f Hk Hf) as (v & C & _).
    rewrite cell_singular in C by assumption. discriminate C.
  - destruct E as [[-> _]|(k' & f' & Hk' & Hf' & C)]; [lia|].
    apply cell_Raise in C; try assumption. destruct C as [-> _]. reflexivity.
Qed.

(** X7: the sweep cannot run on fewer than ten training points: the
    constant-10 fold size is then zero, the last fold takes every row, and
    its empty training subset makes the call fail with the singular-matrix
    error, whatever the fold count [K >= 1] and the data. *)
Theorem evaluate_needs_ten_points (x t xt tt : list Qc) (mo K : nat) :
  length t = length x -> length tt = length xt ->
  (length x < 10)%nat -> (1 <= K)%nat ->
  evaluate x t xt tt mo K = Raise LinAlgError.
Proof.
  intros Lt Ltt Hx HK.
  apply (evaluate_raises_singular x t xt tt mo K 0 (K - 1));
    [assumption | assumption | lia | lia |].
  apply underdetermined_singular.
  unfold fold_start, fold_stop. rewrite (Nat.div_small (length x) 10 Hx).
  replace (S (K - 1)) with K by lia.
  rewrite Nat.eqb_refl, Nat.mul_0_r, training_all by lia. cbn. lia.
Qed.

Lemma evaluate_needs_ten_points_witness :
  evaluate (qs [0; 1; 2; 3; 4; 5; 6; 7; 8]%Z)
           (qs [1; 0; 5; 8; 18; 24; 37; 50; 63]%Z)
           (qs [0; 2; 4]%Z) (qs [1; 4; 17]%Z) 1 3 = Raise LinAlgError.
Proof.
  apply (evaluate_needs_ten_points
           (qs [0; 1; 2; 3; 4; 5; 6; 7; 8]%Z)
           (qs [1; 0; 5; 8; 18; 24; 37; 50; 63]%Z)
           (qs [0; 2; 4]%Z) (qs [1; 4; 17]%Z) 1 3);
    [reflexivity | reflexivity | cbn; lia | lia].
Defined.

Lemma held_out_map {A B : Type} (g : A -> B) (a b : nat) (l : list A) :
  held_out a b (map g l) = map g (held_out a b l).
Proof. unfold held_out. rewrite skipn_map, firstn_map. reflexivity. Qed.

(** * The plotted series (cell 4) *)

Lemma get2_nth (tbl : table) (f j : nat) (v : fval) :
  get2 tbl f j = Some v -> nth j (nth f tbl []) NaN = v.
Proof.
  unfold get2. destruct (nth_error tbl f) as [row|] eqn:Er; [|discriminate].
  intros Ev. rewrite (nth_error_nth tbl f [] Er).
  apply nth_error_nth. exact Ev.
Qed.

Lemma nth_mean_axis0 (c : nat) (tbl : table) (j : nat) :
  (j < c)%nat ->
  nth j (mean_axis0 c tbl) NaN
  = fdiv (fold_right fadd (Fin 0) (map (fun row => nth j row NaN) tbl))
         (length tbl).
Proof.
  intros Hj. unfold mean_axis0.
  set (g := fun j => fdiv (fold_right fadd (Fin 0)
                            (map (fun row => nth j row NaN) tbl)) (length tbl)).
  rewrite (nth_indep _ NaN (g 0%nat)) by (rewrite length_map, length_seq; exact Hj).
  rewrite (map_nth g), seq_nth by exact Hj. reflexivity.
Qed.

Lemma fsum_NaN (l : list fval) :
  In NaN l -> fold_right fadd (Fin 0) l = NaN.
Proof.
  induction l as [|a l IH]; intros H; [contradiction|].
  cbn [fold_right]. destruct H as [->|H]; [reflexivity|].
  rewrite (IH H). destruct a; reflexivity.
Qed.

(** X12: an empty held-out fold blanks the plotted cross-validation curve:
    when the slice [x[c_sizes[f]:c_sizes[f+1]]] of some fold has no row, the
    loss recorded for that fold is [nan] at every order, and in the series
    of [max_order + 1] means over the folds that cell 4 plots, the point of
    every order is [nan] as well. *)
Theorem mean_cv_loss_nan (x t xt tt : list Qc) (mo K f : nat) (L : losses)
        (c : list Z) :
  length t = length x -> length tt = length xt ->
  evaluate x t xt tt mo K = OK L ->
  (f < K)%nat ->
  c_sizes (length x) K = OK c ->
  nrow (slice (column x) (Z.to_nat (nth f c 0%Z))
              (Z.to_nat (nth (f + 1) c 0%Z))) = 0%nat ->
  exists order tr cv ind,
    cell4 mo L = (order, tr, cv, ind) /\
    length order = (mo + 1)%nat /\ length cv = (mo + 1)%nat /\
    forall k, (k <= mo)%nat ->
      get2 (cv_loss L) f k = Some NaN /\ nth_error cv k = Some NaN.
Proof.
  intros Lt Ltt H Hf Ec Hs.
  assert (He : held_out (fold_start (length x) f) (fold_stop (length x) K f) x
               = []).
  { destruct (c_sizes_bounds _ _ _ _ Ec Hf) as [Ea Eb].
    rewrite Ea, Eb, slice_column in Hs. unfold nrow, column in Hs.
    cbn [rws] in Hs. rewrite length_map in Hs.
    apply length_zero_iff_nil. exact Hs. }
  eexists _, _, _, _. split; [reflexivity|].
  split; [unfold arange; rewrite length_seq; lia|].
  assert (Ll : length (mean_axis0 (mo + 1) (cv_loss L)) = (mo + 1)%nat).
  { unfold mean_axis0. rewrite length_map, length_seq. reflexivity. }
  split; [exact Ll|]. intros k Hk.
  pose proof (evaluate_spec x t xt tt mo K) as E. rewrite H in E.
  destruct E as [([Sr Sc] & _ & _) E].
  destruct (E k f Hk Hf) as (r & C & Er).
  apply cell_OK in C; try assumption.
  destruct C as (w & _ & _ & _ & ->).
  apply entry_Some in Er. destruct Er as (Ecv & _ & _).
  rewrite held_out_map, He in Ecv. cbn in Ecv.
  split; [exact Ecv|].
  rewrite (nth_error_nth' _ NaN) by lia. f_equal.
  rewrite nth_mean_axis0 by lia. rewrite fsum_NaN; [reflexivity|].
  apply get2_nth in Ecv. rewrite <- Ecv at 1.
  apply (in_map (fun row => nth k row NaN)). apply nth_In. lia.
Qed.

Lemma mean_cv_loss_nan_witness :
  exists L order tr cv ind,
    evaluate (qs [0; 1; 2; 3; 4; 5; 6; 7; 8; 9;
                  10; 11; 12; 13; 14; 15; 16; 17; 18; 19]%Z)
             (qs [1; 3; 2; 5; 4; 7; 6; 9; 8; 11;
                  10; 13; 12; 15; 14; 17; 16; 19; 18; 21]%Z)
             (qs [0; 2]%Z) (qs [1; 4]%Z) 1 11 = OK L /\
    cell4 1 L = (order, tr, cv, ind) /\
    nth_error cv 1 = Some NaN.
Proof.
  destruct (evaluate (qs [0; 1; 2; 3; 4; 5; 6; 7; 8; 9;
                          10; 11; 12; 13; 14; 15; 16; 17; 18; 19]%Z)
                     (qs [1; 3; 2; 5; 4; 7; 6; 9; 8; 11;
                          10; 13; 12; 15; 14; 17; 16; 19; 18; 21]%Z)
                     (qs [0; 2]%Z) (qs [1; 4]%Z) 1 11) as [L|e] eqn:E;
    [|exfalso; vm_compute in E; discriminate E].
  destruct (mean_cv_loss_nan
              (qs [0; 1; 2; 3; 4; 5; 6; 7; 8; 9;
                   10; 11; 12; 13; 14; 15; 16; 17; 18; 19]%Z)
              (qs [1; 3; 2; 5; 4; 7; 6; 9; 8; 11;
                   10; 13; 12; 15; 14; 17; 16; 19; 18; 21]%Z)
              (qs [0; 2]%Z) (qs [1; 4]%Z) 1 11 10 L _ eq_refl eq_refl E
              ltac:(lia) eq_refl eq_refl)
    as (order & tr & cv & ind & Hc & _ & _ & Hk).
  exists L, order, tr, cv, ind. split; [reflexivity|]. split; [exact Hc|].
  apply (Hk 1%nat). lia.
Defined.

(** * Data generation (cell 1) *)

Lemma smul_column (c : Qc) (p : list Qc) :
  smul c (column p) = column (map (fun a => c * a) p).
Proof. unfold smul, column. cbn [rws ncol]. rewrite !map_map. reflexivity. Qed.

Lemma ssub_column (p : list Qc) (c : Qc) :
  ssub (column p) c = column (map (fun a => a - c) p).
Proof. unfold ssub, column. cbn [rws ncol]. rewrite !map_map. reflexivity. Qed.

Lemma pow_column (p : list Qc) (n : nat) :
  pow (column p) n = column (map (fun a => a ^ n) p).
Proof. unfold pow, column. cbn [rws ncol]. rewrite !map_map. reflexivity. Qed.

Lemma seq_sums (p q : list Qc) :
  length p = length q ->
  map (fun i => [nth i p 0 + nth i q 0]) (seq 0 (length p)) =
  map (fun ab => [fst ab + snd ab]) (combine p q).
Proof.
  revert q. induction p as [|a p IH]; intros [|b q]; simpl;
    try discriminate; [reflexivity|].
  intros H. f_equal. rewrite <- seq_shift, map_map. apply IH. lia.
Qed.

Lemma add_column (p q : list Qc) :
  length p = length q ->
  add (column p) (column q) =
  OK (column (map (fun ab => fst ab + snd ab) (combine p q))).
Proof.
  intros H. unfold add.
  replace (nrow (column p)) with (length p)
    by (unfold nrow, column; simpl; rewrite length_map; reflexivity).
  replace (nrow (column q)) with (length p)
    by (unfold nrow, column; simpl; rewrite length_map; exact H).
  unfold bdim at 1. rewrite Nat.eqb_refl.
  change (bdim (ncol (column p)) (ncol (column q))) with (Some 1%nat).
  cbn [seq map]. unfold column at 3. f_equal. f_equal.
  rewrite map_map. rewrite <- seq_sums by exact H.
  apply map_ext_in. intros i Hi. apply in_seq in Hi.
  rewrite !bget_column by lia. reflexivity.
Qed.

Lemma map_combine_map {A B C D E : Type} (g : C * D -> E) (f : A -> C)
      (h : B -> D) (l : list A) (l' : list B) :
  map g (combine (map f l) (map h l'))
  = map (fun p => g (f (fst p), h (snd p))) (combine l l').
Proof.
  revert l'. induction l as [|a l IH]; intros [|b l']; cbn [map combine];
    try reflexivity.
  rewrite IH. reflexivity.
Qed.

Lemma map_combine_same {A E : Type} (g : A * A -> E) (l : list A) :
  map g (combine l l) = map (fun a => g (a, a)) l.
Proof.
  induction l as [|a l IH]; cbn [map combine]; [reflexivity|].
  rewrite IH. reflexivity.
Qed.

(** The responses of cell 1: the cubic plus 150 times the noise. *)
Lemma targets_column (xs es : list Qc) :
  length es = length xs ->
  targets (column xs) (column es)
  = OK (column (map (fun p => polyval cubic (fst p) + qz 150 * snd p)
                    (combine xs es))).
Proof.
  intros H. unfold targets.
  rewrite !pow_column, !smul_column.
  rewrite sub_column by (rewrite !length_map; reflexivity). cbn [bind].
  rewrite map_map.
  rewrite (map_combine_map (fun ab => fst ab - snd ab)), map_combine_same.
  cbn [fst snd].
  rewrite add_column by (rewrite length_map; reflexivity). cbn [bind].
  rewrite <- (map_id xs) at 2.
  rewrite (map_combine_map (fun ab => fst ab + snd ab)), map_combine_same.
  cbn [fst snd].
  rewrite add_column by (rewrite !length_map; lia). cbn [bind].
  rewrite (map_combine_map (fun ab => fst ab + snd ab)). cbn [fst snd].
  do 2 f_equal. apply map_ext. intros [a e].
  cbn [fst snd]. unfold cubic, polyval. cbn [fold_right]. simpl Qcpower. ring.
Qed.

Lemma linspace_length (start stop : Qc) (num : nat) :
  length (linspace start stop num) = num.
Proof.
  destruct num as [|[|n]]; [reflexivity | reflexivity |].
  cbv beta iota delta [linspace].
  rewrite length_app, length_map, length_seq. cbn [length]. lia.
Qed.

Lemma qz_10 : qz 10 = qz 5 + qz 5.
Proof. apply Qc_is_canon. reflexivity. Qed.

Lemma qz_10_pos : 0 < qz 10.
Proof. reflexivity. Qed.

Lemma input_range (a : Qc) :
  0 <= a -> a < 1 -> - qz 5 <= qz 10 * a - qz 5 /\ qz 10 * a - qz 5 < qz 5.
Proof.
  intros H0 H1. split.
  - replace (- qz 5) with (0 * qz 10 + - qz 5) by ring.
    replace (qz 10 * a - qz 5) with (a * qz 10 + - qz 5) by ring.
    apply Qcplus_le_compat; [|apply Qcle_refl].
    apply Qcmult_le_compat_r; [exact H0|].
    apply Qclt_le_weak, qz_10_pos.
  - apply (proj2 (Qclt_minus_iff _ _)).
    replace (qz 5 + - (qz 10 * a - qz 5)) with ((1 + - a) * qz 10)
      by (rewrite qz_10; ring).
    replace 0 with (0 * qz 10) by ring.
    apply Qcmult_lt_compat_r; [apply qz_10_pos|].
    apply (proj1 (Qclt_minus_iff a 1)). exact H1.
Qed.

Lemma cell1_OK (N_test : nat) (u e e_test : list Qc) :
  length e = length u -> length e_test = N_test ->
  cell1 N_test (column u) (column e) (column e_test)
  = OK (column (map (fun a => qz 10 * a - qz 5) u),
        column (map (fun p => polyval cubic (fst p) + qz 150 * snd p)
                    (combine (map (fun a => qz 10 * a - qz 5) u) e)),
        column (linspace (- qz 5) (qz 5) N_test),
        column (map (fun p => polyval cubic (fst p) + qz 150 * snd p)
                    (combine (linspace (- qz 5) (qz 5) N_test) e_test))).
Proof.
  intros He Het. unfold cell1. rewrite smul_column, ssub_column, map_map.
  rewrite targets_column by (rewrite length_map; exact He). cbn [bind].
  rewrite targets_column by (rewrite linspace_length; exact Het).
  cbn [bind]. reflexivity.
Qed.

(** X14: what cell 1 hands to the sweep, given its random draws: [N] inputs
    [10 u - 5], which lie in [[-5, 5)] for draws [u] in [[0, 1)]; the
    responses [x - x^2 + 5 x^3 + 150 e]; [N_test] test inputs
    [linspace(-5, 5, N_test)] with responses of the same form; the
    training arrays have equal lengths, and so have the test arrays. *)
Theorem cell1_spec (N_test : nat) (u e e_test : list Qc) :
  length e = length u -> length e_test = N_test ->
  exists xs ts xts tts,
    cell1 N_test (column u) (column e) (column e_test)
    = OK (column xs, column ts, column xts, column tts) /\
    xs = map (fun a => qz 10 * a - qz 5) u /\
    ts = map (fun p => polyval cubic (fst p) + qz 150 * snd p) (combine xs e) /\
    xts = linspace (- qz 5) (qz 5) N_test /\
    tts = map (fun p => polyval cubic (fst p) + qz 150 * snd p)
              (combine xts e_test) /\
    length xs = length u /\ length ts = length xs /\
    length xts = N_test /\ length tts = length xts /\
    (Forall (fun a => 0 <= a /\ a < 1) u ->
     Forall (fun a => - qz 5 <= a /\ a < qz 5) xs).
Proof.
  intros He Het. eexists _, _, _, _.
  split; [apply cell1_OK; assumption|].
  split; [reflexivity|]. split; [reflexivity|]. split; [reflexivity|].
  split; [reflexivity|].
  split; [apply length_map|].
  split; [rewrite length_map, length_combine, length_map; lia|].
  split; [apply linspace_length|].
  split; [rewrite length_map, length_combine, linspace_length; lia|].
  intros Hu. rewrite Forall_map. eapply Forall_impl; [|exact Hu].
  intros a [H0 H1]. apply input_range; assumption.
Qed.

Lemma cell1_spec_witness :
  exists d,
    cell1 3 (column (qs [0; 0; 0; 0]%Z)) (column (qs [1; -1; 2; 0]%Z))
          (column (qs [0; 1; -1]%Z)) = OK d.
Proof.
  destruct (cell1_spec 3 (qs [0; 0; 0; 0]%Z) (qs [1; -1; 2; 0]%Z)
              (qs [0; 1; -1]%Z) eq_refl eq_refl)
    as (xs & ts & xts & tts & H & _).
  eexists. exact H.
Defined.

Lemma notebook_evaluate (N N_test : nat) (u e e_test : list Qc) (mo K : nat) :
  length u = N -> length e = length u -> length e_test = N_test ->
  notebook N N_test (column u) (column e) (column e_test) mo K
  = evaluate (map (fun a => qz 10 * a - qz 5) u)
      (map (fun p => polyval cubic (fst p) + qz 150 * snd p)
           (combine (map (fun a => qz 10 * a - qz 5) u) e))
      (linspace (- qz 5) (qz 5) N_test)
      (map (fun p => polyval cubic (fst p) + qz 150 * snd p)
           (combine (linspace (- qz 5) (qz 5) N_test) e_test))
      mo K.
Proof.
  intros Hu He Het. unfold notebook.
  rewrite (cell1_OK N_test u e e_test He Het). cbn [bind].
  unfold evaluate. rewrite length_map, Hu. reflexivity.
Qed.

(** X15: cells 1 and 3 compose: the arrays that cell 1 generates always
    have the shapes the sweep needs, so a run of the notebook is the sweep
    on those arrays and never fails with a shape error; it can only fail
    with the index error of [K = 0] or with a singular-matrix error. *)
Theorem notebook_no_shape_error (N N_test : nat) (u e e_test : list Qc)
        (mo K : nat) :
  length u = N -> length e = length u -> length e_test = N_test ->
  exists xs ts xts tts,
    cell1 N_test (column u) (column e) (column e_test)
    = OK (column xs, column ts, column xts, column tts) /\
    notebook N N_test (column u) (column e) (column e_test) mo K
    = evaluate xs ts xts tts mo K /\
    forall err,
      notebook N N_test (column u) (column e) (column e_test) mo K = Raise err ->
      (K = 0%nat /\ err = IndexError) \/ ((1 <= K)%nat /\ err = LinAlgError).
Proof.
  intros Hu He Het.
  eexists _, _, _, _. split; [apply cell1_OK; assumption|].
  pose proof (notebook_evaluate N N_test u e e_test mo K Hu He Het) as Hn.
  split; [exact Hn|]. intros err Herr. rewrite Hn in Herr.
  match type of Herr with
  | evaluate ?xs ?ts ?xts ?tts _ _ = _ =>
      pose proof (evaluate_spec xs ts xts tts mo K) as E
  end.
  rewrite Herr in E.
  destruct E as [[-> ->]|(k & f & Hk & Hf & C)]; [left; split; reflexivity|].
  right. split; [lia|].
  apply cell_Raise in C; [tauto | | | exact Hf].
  - rewrite length_map, length_combine, length_map. lia.
  - rewrite length_map, length_combine, linspace_length. lia.
Qed.

Lemma notebook_no_shape_error_witness :
  exists xs ts xts tts,
    notebook 4 3 (column (qs [0; 0; 0; 0]%Z)) (column (qs [1; -1; 2; 0]%Z))
             (column (qs [0; 1; -1]%Z)) 1 2
    = evaluate xs ts xts tts 1 2.
Proof.
  destruct (notebook_no_shape_error 4 3 (qs [0; 0; 0; 0]%Z)
              (qs [1; -1; 2; 0]%Z) (qs [0; 1; -1]%Z) 1 2
              eq_refl eq_refl eq_refl)
    as (xs & ts & xts & tts & _ & H & _).
  exists xs, ts, xts, tts. exact H.
Defined.



(** * The sweep over the array library *)

Module FloatProperties.

Import Float.

Section Tables.

Context {A : Type}.

Lemma full_shape (r c : nat) (v : A) : shape (full r c v) r c.
Proof.
  unfold shape, full. split; [apply repeat_length|].
  apply Forall_forall. intros row H. apply repeat_spec in H. subst row.
  apply repeat_length.
Qed.

Lemma set2_at (tbl : table) (r c i j : nat) (v : A) :
  shape tbl r c -> (i < r)%nat -> (j < c)%nat ->
  exists tbl', set2 tbl i j v = OK tbl' /\ shape tbl' r c /\
               get2 tbl' i j = Some v /\
               forall i' j', (i', j') <> (i, j) ->
                             get2 tbl' i' j' = get2 tbl i' j'.
Proof.
  intros [Hr Hc] Hi Hj. unfold set2.
  destruct (nth_error tbl i) as [row|] eqn:Er;
    [|apply nth_error_None in Er; lia].
  assert (Lrow : length row = c).
  { rewrite Forall_forall in Hc. apply Hc. eapply nth_error_In; eauto. }
  destruct (set_nth_spec row j v ltac:(lia)) as (row' & E1 & L1 & N1 & O1).
  rewrite E1.
  destruct (set_nth_spec tbl i row' ltac:(lia)) as (tbl' & E2 & L2 & N2 & O2).
  rewrite E2. exists tbl'. split; [reflexivity|]. split; [|split].
  - split; [lia|]. eapply set_nth_Forall; eauto. lia.
  - unfold get2. rewrite N2. exact N1.
  - intros i' j' Hne. unfold get2. destruct (Nat.eq_dec i' i) as [->|Hi'].
    + rewrite N2, Er. apply O1. intros ->. apply Hne. reflexivity.
    + rewrite (O2 i' Hi'). reflexivity.
Qed.

Lemma shape_size (tbl : table (A := A)) (r c : nat) :
  shape tbl r c -> length (concat tbl) = (r * c)%nat.
Proof.
  intros [Hr Hc]. subst r. induction tbl as [|row tbl IH]; [reflexivity|].
  inversion Hc as [|? ? H1 H2]; subst. cbn [concat length].
  rewrite length_app, (IH H2). lia.
Qed.

End Tables.

Section Sweep.

Context {np : Numpy}.

Lemma fold_body_cell (t t_test : ndarray float64) (c_sizes : list Z)
      (X X_test : ndarray float64) (r c k fold : nat) (L : losses float64) :
  shapes L r c -> (fold < r)%nat -> (k < c)%nat ->
  match fold_body t t_test c_sizes X X_test k fold L with
  | OK L' =>
      shapes L' r c /\
      (exists v, cell_losses t t_test c_sizes X X_test fold = OK v /\
                 entry L' fold k = Some v) /\
      (forall f' k', (f', k') <> (fold, k) -> entry L' f' k' = entry L f' k')
  | Raise e => cell_losses t t_test c_sizes X X_test fold = Raise e
  end.
Proof.
  intros (S1 & S2 & S3) Hf Hk. unfold fold_body, cell_losses.
  do 5 (step_bind; [|reflexivity]).
  match goal with |- context [set2 (cv_loss L) fold k ?v] =>
    destruct (set2_at _ _ _ _ _ v S1 Hf Hk) as (t1 & E1 & Sh1 & G1 & O1) end.
  rewrite E1. cbn [bind].
  do 2 (step_bind; [|reflexivity]).
  match goal with |- context [set2 (ind_loss L) fold k ?v] =>
    destruct (set2_at _ _ _ _ _ v S2 Hf Hk) as (t2 & E2 & Sh2 & G2 & O2) end.
  rewrite E2. cbn [bind].
  do 2 (step_bind; [|reflexivity]).
  match goal with |- context [set2 (train_loss L) fold k ?v] =>
    destruct (set2_at _ _ _ _ _ v S3 Hf Hk) as (t3 & E3 & Sh3 & G3 & O3) end.
  rewrite E3. cbn [bind].
  split; [exact (conj Sh1 (conj Sh2 Sh3))|]. split.
  - eexists. split; [reflexivity|]. unfold entry. cbn [cv_loss ind_loss train_loss].
    rewrite G1, G2, G3. reflexivity.
  - intros f' k' Hne. unfold entry. cbn [cv_loss ind_loss train_loss].
    rewrite (O1 _ _ Hne), (O2 _ _ Hne), (O3 _ _ Hne). reflexivity.
Qed.

(** The fold loop over the folds [f0, f0 + 1, ..., f0 + n - 1]: it records
    one cell per fold, and it fails with the error of the first fold whose
    cell fails. *)
Lemma fold_loop_cells (t t_test : ndarray float64) (c_sizes : list Z)
      (X X_test : ndarray float64) (r c k : nat) :
  (k < c)%nat ->
  forall (n f0 : nat) (L : losses float64),
    shapes L r c -> (f0 + n <= r)%nat ->
    match fold_loop t t_test c_sizes X X_test k (seq f0 n) L with
    | OK L' =>
        shapes L' r c /\
        (forall f, (f0 <= f < f0 + n)%nat ->
                   exists v, cell_losses t t_test c_sizes X X_test f = OK v /\
                             entry L' f k = Some v) /\
        (forall f' k', ~ ((f0 <= f' < f0 + n)%nat /\ k' = k) ->
                       entry L' f' k' = entry L f' k')
    | Raise e =>
        exists f, (f0 <= f < f0 + n)%nat /\
                  cell_losses t t_test c_sizes X X_test f = Raise e /\
                  forall f', (f0 <= f' < f)%nat ->
                    exists v, cell_losses t t_test c_sizes X X_test f' = OK v
    end.
Proof.
  intros Hk. induction n as [|n IH]; intros f0 L SL Hn; cbn [seq fold_loop].
  - split; [exact SL|]. split; [intros f Hf; lia | reflexivity].
  - pose proof (fold_body_cell t t_test c_sizes X X_test r c k f0 L SL
                  ltac:(lia) Hk) as B.
    destruct (fold_body t t_test c_sizes X X_test k f0 L) as [L1|e]; cbn [bind].
    + destruct B as (S1 & (v & Cv & Ev) & Fr1).
      specialize (IH (S f0) L1 S1 ltac:(lia)).
      destruct (fold_loop t t_test c_sizes X X_test k (seq (S f0) n) L1)
        as [L'|e].
      * destruct IH as (S' & Hin & Fr'). split; [exact S'|]. split.
        -- intros f Hf. destruct (Nat.eq_dec f f0) as [->|Hne].
           ++ exists v. split; [exact Cv|]. rewrite Fr' by lia. exact Ev.
           ++ apply Hin. lia.
        -- intros f' k' Hne. rewrite Fr' by lia. apply Fr1.
           intros E. injection E as -> ->. apply Hne. split; [lia | reflexivity].
      * destruct IH as (f & Hf & Cf & Hb). exists f.
        split; [lia|]. split; [exact Cf|].
        intros f' Hf'. destruct (Nat.eq_dec f' f0) as [->|Hne];
          [exists v; exact Cv | apply Hb; lia].
    + exists f0. split; [lia|]. split; [exact B|]. intros f' Hf'. lia.
Qed.

Lemma float_monomials_S (k : nat) (a : float64) :
  monomials (S k) a = monomials k a ++ [power a (k + 1)].
Proof.
  unfold monomials. rewrite seq_S, map_app. cbn [map app].
  replace (1 + k)%nat with (k + 1)%nat by lia. reflexivity.
Qed.

Lemma float_zip_rows_map (f g : float64 -> list float64) (v : list float64) :
  zip_rows (map f v) (map g v) = map (fun a => f a ++ g a) v.
Proof.
  induction v as [|a v IH]; simpl; [reflexivity | rewrite IH; reflexivity].
Qed.

Lemma float_extend_design (v : list float64) (k : nat) :
  extend (design v k) (column v) k = OK (design v (S k)).
Proof.
  unfold extend, hstack, design, column, pow, nrow. cbn [rws ncol].
  rewrite !length_map, Nat.eqb_refl. f_equal.
  replace (k + 1 + 1)%nat with (S k + 1)%nat by lia. f_equal.
  rewrite map_map. cbn [map]. rewrite float_zip_rows_map.
  apply map_ext. intros a. rewrite float_monomials_S. reflexivity.
Qed.

Lemma float_ones_like_column (v : list float64) : ones_like (column v) = design v 0.
Proof.
  unfold ones_like, column, design. cbn [rws ncol]. rewrite map_map.
  reflexivity.
Qed.

Lemma order_loop_cells (xs xts : list float64) (t t_test : ndarray float64)
      (K M : nat) (c_sizes : list Z) :
  forall (m k0 : nat) (L : losses float64),
    shapes L K M -> (k0 + m <= M)%nat ->
    match order_loop (column xs) t (column xts) t_test K c_sizes (seq k0 m)
                     (design xs k0) (design xts k0) L with
    | OK L' =>
        shapes L' K M /\
        (forall k f, (k0 <= k < k0 + m)%nat -> (f < K)%nat ->
           exists v, cell_losses t t_test c_sizes (design xs k) (design xts k) f
                     = OK v /\ entry L' f k = Some v) /\
        (forall f' k', ~ (k0 <= k' < k0 + m)%nat ->
                       entry L' f' k' = entry L f' k')
    | Raise e =>
        exists k f, (k0 <= k < k0 + m)%nat /\ (f < K)%nat /\
          cell_losses t t_test c_sizes (design xs k) (design xts k) f = Raise e /\
          forall k' f', (k0 <= k')%nat -> (f' < K)%nat -> before k' f' k f ->
            exists v, cell_losses t t_test c_sizes (design xs k') (design xts k') f'
                      = OK v
    end.
Proof.
  induction m as [|m IH]; intros k0 L SL Hm; cbn [seq order_loop].
  - split; [exact SL|]. split; [intros; lia | reflexivity].
  - assert (Hk : (k0 < M)%nat) by lia.
    pose proof (fold_loop_cells t t_test c_sizes (design xs k0) (design xts k0)
                  K M k0 Hk K 0 L SL ltac:(lia)) as B.
    destruct (fold_loop t t_test c_sizes (design xs k0) (design xts k0) k0
                (seq 0 K) L) as [L1|e]; cbn [bind].
    + destruct B as (S1 & Hin & Fr1).
      rewrite !float_extend_design. cbn [bind].
      specialize (IH (S k0) L1 S1 ltac:(lia)).
      destruct (order_loop (column xs) t (column xts) t_test K c_sizes
                  (seq (S k0) m) (design xs (S k0)) (design xts (S k0)) L1)
        as [L'|e].
      * destruct IH as (S' & Hc & Fr'). split; [exact S'|]. split.
        -- intros k f Hkr Hfr. destruct (Nat.eq_dec k k0) as [->|Hne].
           ++ destruct (Hin f) as (v & Cv & Ev); [lia|].
              exists v. split; [exact Cv|]. rewrite Fr' by lia. exact Ev.
           ++ apply Hc; [lia | exact Hfr].
        -- intros f' k' Hn. rewrite Fr' by lia. apply Fr1. intros [_ ->]. lia.
      * destruct IH as (k & f & Hkr & Hfr & C & Hb). exists k, f.
        split; [lia|]. split; [exact Hfr|]. split; [exact C|].
        intros k' f' Hk' Hf' Hbe. destruct (Nat.eq_dec k' k0) as [->|Hne].
        -- destruct (Hin f') as (v & Cv & _); [lia|]. exists v. exact Cv.
        -- apply Hb; [lia | exact Hf' | exact Hbe].
    + destruct B as (f & Hfin & C & Hb). exists k0, f.
      split; [lia|]. split; [lia|]. split; [exact C|].
      intros k' f' Hk' Hf' [Hlt|[-> Hlt]]; [lia|]. apply Hb. lia.
Qed.

(** The outcome of the sweep, cell by cell: a table holds the losses of
    every cell; a failure is the failure of the first cell that fails, in
    the order of the loops. *)
Theorem sweep_cells (x t xt tt : list float64) (mo K : nat) :
  match evaluate x t xt tt mo K with
  | OK L =>
      shapes L K (mo + 1) /\
      forall k f, (k <= mo)%nat -> (f < K)%nat ->
        exists v, cell x t xt tt K k f = OK v /\ entry L f k = Some v
  | Raise e =>
      (K = 0%nat /\ e = IndexError) \/
      exists k f, (k <= mo)%nat /\ (f < K)%nat /\
        cell x t xt tt K k f = Raise e /\
        forall k' f', (f' < K)%nat -> before k' f' k f ->
          exists v, cell x t xt tt K k' f' = OK v
  end.
Proof.
  unfold evaluate, cell3, cell. destruct K as [|K].
  - left. split; reflexivity.
  - destruct (c_sizes_S (length x) K) as [c Ec]. rewrite Ec. cbn [bind].
    rewrite !float_ones_like_column.
    set (L0 := Losses _ _ _).
    assert (S0 : shapes L0 (S K) (mo + 1)).
    { unfold shapes, L0. cbn [cv_loss ind_loss train_loss].
      split; [|split]; apply full_shape. }
    pose proof (order_loop_cells x xt (column t) (column tt) (S K) (mo + 1) c
                  (mo + 1) 0 L0 S0 ltac:(lia)) as B.
    destruct (order_loop (column x) (column t) (column xt) (column tt) (S K) c
                (seq 0 (mo + 1)) (design x 0) (design xt 0) L0) as [L|e].
    + destruct B as (SL & Hc & _). split; [exact SL|].
      intros k f Hk Hf. apply Hc; [lia | exact Hf].
    + right. destruct B as (k & f & Hk & Hf & C & Hb). exists k, f.
      split; [lia|]. split; [exact Hf|]. split; [exact C|].
      intros k' f' Hf' Hbe. apply Hb; [lia | exact Hf' | exact Hbe].
Qed.

Lemma cell_parts (x t xt tt : list float64) (K k f : nat)
      (v : float64 * float64 * float64) :
  (f < K)%nat -> cell x t xt tt K k f = OK v ->
  let a := fold_start (length x) f in
  let b := fold_stop (length x) K f in
  let X_train := np_delete (design x k) (arange a b) in
  let t_train := np_delete (column t) (arange a b) in
  exists G r w p_cv cv p_ind ind p_tr tr,
    dot (transpose X_train) X_train = OK G /\
    dot (transpose X_train) t_train = OK r /\
    solve G r = OK w /\
    dot (slice (design x k) a b) w = OK p_cv /\
    mse p_cv (slice (column t) a b) = OK cv /\
    dot (design xt k) w = OK p_ind /\
    mse p_ind (column tt) = OK ind /\
    dot X_train w = OK p_tr /\
    mse p_tr t_train = OK tr /\
    v = (cv, ind, tr).
Proof.
  intros Hf. unfold cell.
  destruct (c_sizes (length x) K) as [c|e] eqn:Ec; [|discriminate].
  destruct (c_sizes_index _ _ _ _ Ec Hf) as [Ia Ib].
  cbn [bind]. unfold cell_losses. rewrite Ia, Ib. cbn [bind].
  rewrite !Nat2Z.id. unfold fit. cbv zeta.
  intros H.
  apply bind_OK in H. destruct H as (w & Hfit & H).
  apply bind_OK in Hfit. destruct Hfit as (G & HG & Hfit).
  apply bind_OK in Hfit. destruct Hfit as (r & Hr & Hw).
  apply bind_OK in H. destruct H as (p_cv & H1 & H).
  apply bind_OK in H. destruct H as (cv & H2 & H).
  apply bind_OK in H. destruct H as (p_ind & H3 & H).
  apply bind_OK in H. destruct H as (ind & H4 & H).
  apply bind_OK in H. destruct H as (p_tr & H5 & H).
  apply bind_OK in H. destruct H as (tr & H6 & H).
  injection H as <-.
  exists G, r, w, p_cv, cv, p_ind, ind, p_tr, tr.
  repeat (split; [assumption|]). reflexivity.
Qed.

Lemma cell_solver_failure (x t xt tt : list float64) (K k f : nat)
      (G r : ndarray float64) (e : exn) :
  (f < K)%nat ->
  let a := fold_start (length x) f in
  let b := fold_stop (length x) K f in
  let X_train := np_delete (design x k) (arange a b) in
  let t_train := np_delete (column t) (arange a b) in
  dot (transpose X_train) X_train = OK G ->
  dot (transpose X_train) t_train = OK r ->
  solve G r = Raise e ->
  cell x t xt tt K k f = Raise e.
Proof.
  intros Hf a b X_train t_train HG Hr Hs. unfold cell.
  destruct (c_sizes (length x) K) as [c|e'] eqn:Ec.
  2:{ destruct K; [lia|]. destruct (c_sizes_S (length x) K) as [c Ec'].
      congruence. }
  destruct (c_sizes_index _ _ _ _ Ec Hf) as [Ia Ib].
  cbn [bind]. unfold cell_losses. rewrite Ia, Ib. cbn [bind].
  rewrite !Nat2Z.id. unfold fit. cbv zeta.
  fold a b. fold X_train t_train. rewrite HG. cbn [bind]. rewrite Hr.
  cbn [bind]. rewrite Hs. reflexivity.
Qed.


Lemma float_entry_Some (L : losses float64) (f k : nat) (cv ind tr : float64) :
  entry L f k = Some (cv, ind, tr) ->
  get2 (cv_loss L) f k = Some cv /\ get2 (ind_loss L) f k = Some ind /\
  get2 (train_loss L) f k = Some tr.
Proof.
  unfold entry.
  destruct (get2 (cv_loss L) f k), (get2 (ind_loss L) f k),
    (get2 (train_loss L) f k); intros H; try discriminate H.
  injection H as -> -> ->. repeat split.
Qed.


(** C4 (amended): an error that [np.linalg.solve] raises in a cell (order
    [k], fold [f]), as it does for a matrix it finds singular, is not caught:
    the whole call fails and returns no table, whatever the other cells
    would give; when the cells that the loops visit before it are computed,
    the call fails with that very error. *)
Theorem solver_failure_aborts (x t xt tt : list float64) (mo K k f : nat)
        (G r : ndarray float64) (e : exn) :
  (k <= mo)%nat -> (f < K)%nat ->
  let a := fold_start (length x) f in
  let b := fold_stop (length x) K f in
  let X_train := np_delete (design x k) (arange a b) in
  let t_train := np_delete (column t) (arange a b) in
  dot (transpose X_train) X_train = OK G ->
  dot (transpose X_train) t_train = OK r ->
  solve G r = Raise e ->
  (exists e', evaluate x t xt tt mo K = Raise e') /\
  ((forall k' f', (f' < K)%nat -> before k' f' k f ->
                  exists v, cell x t xt tt K k' f' = OK v) ->
   evaluate x t xt tt mo K = Raise e).
Proof.
  intros Hk Hf a b X_train t_train HG Hr Hs.
  pose proof (cell_solver_failure x t xt tt K k f G r e Hf HG Hr Hs) as C.
  pose proof (sweep_cells x t xt tt mo K) as E.
  destruct (evaluate x t xt tt mo K) as [L|e'].
  - destruct E as [_ E]. destruct (E k f Hk Hf) as (v & C' & _). congruence.
  - split; [eauto|]. intros Hb.
    destruct E as [[-> _]|(k0 & f0 & Hk0 & Hf0 & C0 & Hb0)]; [lia|].
    destruct (Nat.lt_trichotomy k0 k) as [Hlt|[->|Hgt]].
    + destruct (Hb k0 f0 Hf0 (or_introl Hlt)) as (v & Cv). congruence.
    + destruct (Nat.lt_trichotomy f0 f) as [Hlt|[->|Hgt]].
      * destruct (Hb k f0 Hf0 (or_intror (conj eq_refl Hlt))) as (v & Cv).
        congruence.
      * congruence.
      * destruct (Hb0 k f Hf (or_intror (conj eq_refl Hgt))) as (v & Cv).
        congruence.
    + destruct (Hb0 k f Hf (or_introl Hgt)) as (v & Cv). congruence.
Qed.

(** X18: whatever the library computes, the sweep returns its tables exactly
    when there is at least one fold and every cell of the grid can be
    computed on its own, on the design matrix of its order built from
    scratch; and a call that fails does so with the index error of [K = 0],
    or with the error of the first cell, in the order of the loops, whose
    computation fails, the cells before it having been computed. *)
Theorem evaluate_returns_iff (x t xt tt : list float64) (mo K : nat) :
  ((exists L, evaluate x t xt tt mo K = OK L) <->
   (1 <= K)%nat /\
   forall k f, (k <= mo)%nat -> (f < K)%nat ->
               exists v, cell x t xt tt K k f = OK v) /\
  forall e, evaluate x t xt tt mo K = Raise e ->
    (K = 0%nat /\ e = IndexError) \/
    exists k f, (k <= mo)%nat /\ (f < K)%nat /\
      cell x t xt tt K k f = Raise e /\
      forall k' f', (f' < K)%nat -> before k' f' k f ->
        exists v, cell x t xt tt K k' f' = OK v.
Proof.
  pose proof (sweep_cells x t xt tt mo K) as E.
  destruct (evaluate x t xt tt mo K) as [L|e] eqn:Hev; split.
  - split; [|eauto]. intros _. destruct E as [_ E]. split.
    + destruct K; [|lia]. unfold evaluate, cell3 in Hev.
      rewrite c_sizes_0 in Hev. discriminate Hev.
    + intros k f Hk Hf. destruct (E k f Hk Hf) as (v & C & _). eauto.
  - intros e H. discriminate H.
  - split; [intros [L H]; discriminate H|]. intros [HK Hc]. exfalso.
    destruct E as [[-> _]|(k & f & Hk & Hf & C & _)]; [lia|].
    destruct (Hc k f Hk Hf) as (v & Cv). congruence.
  - intros e' H. injection H as <-. exact E.
Qed.

Section Signs.

(** [negative a] is the comparison [a < 0], false on [nan]. *)
Variable negative : float64 -> bool.

Hypothesis square_sign : forall a, negative (power a 2) = false.

Hypothesis mean_sign : forall X : ndarray float64,
  Forall (Forall (fun a => negative a = false)) (rws X) ->
  negative (mean X) = false.

Lemma mse_sign (p y : ndarray float64) (v : float64) :
  mse p y = OK v -> negative v = false.
Proof.
  unfold mse. destruct (sub p y) as [d|e]; cbn [bind]; [|discriminate].
  intros H; injection H as <-. apply mean_sign.
  unfold pow. cbn [rws]. rewrite Forall_map. apply Forall_forall.
  intros row _. rewrite Forall_map. apply Forall_forall. intros a _.
  apply square_sign.
Qed.

(** C9 (amended): whenever the call returns its tables, each of the three
    has exactly [K] rows of [max_order + 1] entries, that is
    [(max_order+1) * K] entries, one per (fold, order) pair, and no recorded
    loss is negative: each is a mean of squares, hence a number [>= 0], or
    [inf] or [nan] (overflow, empty fold).  The two facts of floating-point
    arithmetic that this rests on are hypotheses: a square is never
    negative, and neither is the mean of an array without negative entry. *)
Theorem loss_table_shape_nonneg (x t xt tt : list float64) (mo K : nat)
        (L : losses float64) :
  evaluate x t xt tt mo K = OK L ->
  shapes L K (mo + 1) /\
  length (concat (cv_loss L)) = ((mo + 1) * K)%nat /\
  length (concat (ind_loss L)) = ((mo + 1) * K)%nat /\
  length (concat (train_loss L)) = ((mo + 1) * K)%nat /\
  forall k f, (k <= mo)%nat -> (f < K)%nat ->
    exists cv ind tr,
      get2 (cv_loss L) f k = Some cv /\
      get2 (ind_loss L) f k = Some ind /\
      get2 (train_loss L) f k = Some tr /\
      negative cv = false /\ negative ind = false /\ negative tr = false.
Proof.
  intros H. pose proof (sweep_cells x t xt tt mo K) as E.
  rewrite H in E. destruct E as [SL E]. split; [exact SL|].
  destruct SL as (S1 & S2 & S3).
  rewrite (shape_size _ _ _ S1), (shape_size _ _ _ S2), (shape_size _ _ _ S3).
  split; [lia|]. split; [lia|]. split; [lia|].
  intros k f Hk Hf. destruct (E k f Hk Hf) as (v & C & Ev).
  destruct (cell_parts x t xt tt K k f v Hf C)
    as (G & r & w & p_cv & cv & p_ind & ind & p_tr & tr
        & _ & _ & _ & _ & H2 & _ & H4 & _ & H6 & ->).
  apply float_entry_Some in Ev. destruct Ev as (Ecv & Eind & Etr).
  exists cv, ind, tr. split; [exact Ecv|]. split; [exact Eind|].
  split; [exact Etr|].
  split; [exact (mse_sign _ _ _ H2)|].
  split; [exact (mse_sign _ _ _ H4) | exact (mse_sign _ _ _ H6)].
Qed.

End Signs.

End Sweep.

(** ** The sweep on the rational arithmetic *)

Lemma fnegative_Fin (q : Qc) : fnegative (Fin q) = false <-> 0 <= q.
Proof.
  cbn [fnegative]. split.
  - intros H. apply Qcge_alt. intros E. rewrite E in H. discriminate H.
  - intros H. apply Qcge_alt in H. destruct (q ?= 0); congruence.
Qed.

Lemma fpow_2_sign (a : fval) : fnegative (fpow a 2) = false.
Proof.
  destruct a as [q|]; [|reflexivity]. cbn [fpow]. apply fnegative_Fin.
  replace (q ^ 2) with (q * q) by (simpl; ring). apply Qc_sq_nonneg.
Qed.

Lemma fadd_sign (a b : fval) :
  fnegative a = false -> fnegative b = false -> fnegative (fadd a b) = false.
Proof.
  destruct a as [p|], b as [q|]; try reflexivity. cbn [fadd].
  rewrite !fnegative_Fin. intros Hp Hq.
  replace 0 with (0 + 0) by ring. apply Qcplus_le_compat; assumption.
Qed.

Lemma fdiv_sign (a : fval) (n : nat) :
  fnegative a = false -> fnegative (fdiv a n) = false.
Proof.
  destruct a as [p|]; [|reflexivity]. cbn [fdiv].
  destruct (Nat.eqb_spec n 0) as [->|Hn]; [reflexivity|].
  rewrite !fnegative_Fin. intros Hp.
  apply Qc_div_nonneg; [exact Hp | apply of_nat_pos; lia].
Qed.

Lemma rational_mean_sign (X : Float.ndarray fval) :
  Forall (Forall (fun a => fnegative a = false)) (Float.rws X) ->
  fnegative (rational_mean X) = false.
Proof.
  unfold rational_mean. generalize (Float.rws X) as rows. intros rows H.
  assert (F : Forall (fun a => fnegative a = false) (concat rows)).
  { induction H as [|row rows' Hrow _ IH]; [constructor|].
    cbn [concat]. apply Forall_app. split; assumption. }
  assert (S : fnegative (fold_right fadd (Fin 0) (concat rows)) = false).
  { induction F as [|b l Hb _ IH]; [reflexivity|].
    cbn [fold_right]. apply fadd_sign; assumption. }
  destruct (concat rows) as [|a els]; [reflexivity|].
  apply fdiv_sign. exact S.
Qed.


Lemma solver_failure_aborts_witness :
  evaluate (np := rational)
           (fs [2; 2; 2; 2; 2; 2; 2; 2; 2; 2; 2; 2]%Z)
           (fs [0; 1; 2; 3; 4; 5; 6; 7; 8; 9; 10; 11]%Z)
           (fs [1; 2; 3]%Z) (fs [3; 4; 5]%Z) 2 3 = Raise LinAlgError.
Proof.
  refine (proj2 (solver_failure_aborts (np := rational)
                   (fs [2; 2; 2; 2; 2; 2; 2; 2; 2; 2; 2; 2]%Z)
                   (fs [0; 1; 2; 3; 4; 5; 6; 7; 8; 9; 10; 11]%Z)
                   (fs [1; 2; 3]%Z) (fs [3; 4; 5]%Z) 2 3 1 0
                   _ _ LinAlgError _ _ _ _ _) _).
  - lia.
  - lia.
  - vm_compute. reflexivity.
  - vm_compute. reflexivity.
  - vm_compute. reflexivity.
  - intros k' f' Hf' [Hk'|[_ Hlt]]; [|lia].
    assert (k' = 0%nat) by lia. subst k'.
    destruct f' as [|[|[|f']]]; [| | |lia]; eexists; vm_compute; reflexivity.
Defined.

Lemma loss_table_shape_nonneg_witness :
  exists L,
    evaluate (np := rational)
             (fs [0; 1; 2; 3; 4; 5; 6; 7; 8; 9]%Z)
             (fs [2; 1; 6; 7; 18; 27; 35; 50; 66; 80]%Z)
             (fs [0; 2; 4]%Z) (fs [1; 4; 17]%Z) 1 10 = OK L /\
    shapes L 10 (1 + 1) /\
    exists tr, get2 (train_loss L) 3 1 = Some tr /\ fnegative tr = false.
Proof.
  destruct (evaluate (np := rational)
              (fs [0; 1; 2; 3; 4; 5; 6; 7; 8; 9]%Z)
              (fs [2; 1; 6; 7; 18; 27; 35; 50; 66; 80]%Z)
              (fs [0; 2; 4]%Z) (fs [1; 4; 17]%Z) 1 10) as [L|e] eqn:E;
    [|exfalso; vm_compute in E; discriminate E].
  destruct (loss_table_shape_nonneg (np := rational) fnegative fpow_2_sign
              rational_mean_sign _ _ _ _ 1 10 L E) as (SL & _ & _ & _ & Hc).
  exists L. split; [reflexivity|]. split; [exact SL|].
  destruct (Hc 1%nat 3%nat ltac:(lia) ltac:(lia))
    as (cv & ind & tr & _ & _ & Htr & _ & _ & Hn).
  exists tr. split; [exact Htr | exact Hn].
Defined.

End FloatProperties.
